(** * make_icons.py: the icon export routine [generate_tauri_icons]

    A shallow embedding of [src/script/make_icons.py].  The script is a
    straight-line sequence of file-system calls ([os.path.exists],
    [os.makedirs]), imaging-library calls ([Image.open], [convert],
    [resize], [save]) and [print]s.  The file system and the console are
    threaded explicitly through a small state-and-exception monad; images
    are kept symbolically, as the history of library operations that
    produced them, because the pixel arithmetic itself is delegated to the
    imaging library. *)

From Stdlib Require Import ZArith.
From stdpp Require Import base gmap list strings.

(** ** The imaging library (PIL), as far as the script uses it *)

Module PIL.

Inductive Mode := ModeL | ModeP | ModeRGB | ModeRGBA | ModeCMYK.

Inductive Resampling := NEAREST | BILINEAR | BICUBIC | LANCZOS.

(** An image is the raster read from a file ([px] names its pixel
    content) followed by the conversions and resizes applied to it.
    [Image.convert] and [Image.resize] both return a new image and leave
    their argument untouched. *)
Inductive Image :=
| Decoded (w h : Z) (m : Mode) (px : N)
| Converted (m : Mode) (im : Image)
| Resized (sz : Z * Z) (f : Resampling) (im : Image).

(** [im.size], a (width, height) pair. *)
Fixpoint size (im : Image) : Z * Z :=
  match im with
  | Decoded w h _ _ => (w, h)
  | Converted _ im' => size im'
  | Resized sz _ _ => sz
  end.

(** [im.mode]. *)
Fixpoint mode (im : Image) : Mode :=
  match im with
  | Decoded _ _ m _ => m
  | Converted m _ => m
  | Resized _ _ im' => mode im'
  end.

Definition convert (im : Image) (m : Mode) : Image := Converted m im.

Definition resize (im : Image) (sz : Z * Z) (f : Resampling) : Image :=
  Resized sz f im.

(** The [format] argument of [Image.save], with the [sizes] option of
    the ICO writer. *)
Inductive SaveFormat :=
| PNG
| ICO (sizes : list (Z * Z))
| ICNS.

(** An entry of an ICO container: a copy of [im] after
    [thumbnail(requested, f)], which fits the copy into the box
    [requested] and keeps the aspect ratio of [im]. *)
Inductive IcoEntry :=
| Thumbnail (requested : Z * Z) (f : Resampling) (im : Image).

(** What a file holds: bytes that were there before the run, one of the
    three encodings the script writes, or what is left of a file that a
    failed [save] had opened for writing. *)
Inductive FileData :=
| Raw (bytes : string)
| PngFile (im : Image)
| IcoFile (entries : list IcoEntry)
| IcnsFile (im : Image)
| Truncated.

(** The ICO writer keeps a requested size only when it fits in the image
    and in 256x256: the library's documentation of the [sizes] option
    says that any size bigger than the original size or 256 is ignored.
    (The writer walks the requested sizes in increasing order; the list
    the script passes is already increasing.) *)
Definition ico_keeps (original : Z * Z) (s : Z * Z) : bool :=
  negb ((fst original <? fst s)%Z || (snd original <? snd s)%Z
        || (256 <? fst s)%Z || (256 <? snd s)%Z).

(** One entry per kept size, each a LANCZOS thumbnail of the image. *)
Definition ico_entries (im : Image) (sizes : list (Z * Z)) : list IcoEntry :=
  map (fun s => Thumbnail s LANCZOS im) (List.filter (ico_keeps (size im)) sizes).

(** The pixel dimensions of an entry.  [thumbnail] leaves an image that
    already fits the box as it is, and brings a square image into a square
    box to exactly the box; for the other shapes it rounds the scaled
    dimension in floating point, which is not modelled ([None]). *)
Definition entry_size (e : IcoEntry) : option (Z * Z) :=
  match e with
  | Thumbnail (x, y) _ im =>
      let (w, h) := size im in
      if ((w <=? x)%Z && (h <=? y)%Z)%bool then Some (w, h)
      else if ((w =? h)%Z && (x =? y)%Z)%bool then Some (x, y)
      else None
  end.

(** What the writer of [fmt] makes of [im]; the ICO writer fails, with
    [ValueError], when no requested size is kept. *)
Definition encode (im : Image) (fmt : SaveFormat) : option FileData :=
  match fmt with
  | PNG => Some (PngFile im)
  | ICO sizes =>
      match ico_entries im sizes with
      | [] => None
      | entries => Some (IcoFile entries)
      end
  | ICNS => Some (IcnsFile im)
  end.

(** The images a written file was encoded from. *)
Definition sources (d : FileData) : list Image :=
  match d with
  | Raw _ | Truncated => []
  | PngFile im | IcnsFile im => [im]
  | IcoFile entries => map (fun e => match e with Thumbnail _ _ im => im end) entries
  end.

End PIL.

Export PIL.

(** ** The file system and the console *)

(** A path is the list of its components, innermost first:
    [icons/32x32.png] is ["32x32.png"; "icons"], and [[]] is the directory
    the relative paths start from, which always exists. *)
Abbreviation path := (list string).

Inductive Node :=
| Dir
| File (d : FileData).

(** The exceptions the modelled calls raise; each is a subclass of
    Python's [Exception]. *)
Inductive Exn :=
| FileNotFoundError
| FileExistsError
| NotADirectoryError
| IsADirectoryError
| UnidentifiedImageError
| ValueError.

(** One constructor per [print] of the script. *)
Inductive Message :=
| MsgMissingSource (p : path)
| MsgCreatedDir (p : path)
| MsgLoaded (p : path) (sz : Z * Z)
| MsgCannotOpen (e : Exn)
| MsgPngHeader
| MsgTileHeader
| MsgIcoHeader
| MsgIcnsHeader
| MsgGenerated (filename : string)
| MsgIcoGenerated (sizes : list (Z * Z))
| MsgIcnsGenerated
| MsgIcnsWarning
| MsgDone (p : path).

(** What the run does to the outside world, in order. *)
Inductive Event :=
| EvOpen (p : path)
| EvMkdir (p : path)
| EvSave (p : path) (d : FileData)
| EvPrint (m : Message).

Record World := mkWorld {
  files : gmap path Node;
  events : list Event
}.

Definition node (fs : gmap path Node) (p : path) : option Node :=
  match p with
  | [] => Some Dir
  | _ => fs !! p
  end.

Definition log (e : Event) (w : World) : World :=
  {| files := files w; events := events w ++ [e] |}.

Definition store (p : path) (n : Node) (w : World) : World :=
  {| files := <[p := n]> (files w); events := events w |}.

(** ** A state and exception monad for the script *)

Inductive Res (A : Type) :=
| Val (a : A)
| Raise (e : Exn).
Arguments Val {A} a.
Arguments Raise {A} e.

Definition M (A : Type) : Type := World -> Res A * World.

Definition ret {A} (a : A) : M A := fun w => (Val a, w).

Definition raise {A} (e : Exn) : M A := fun w => (Raise e, w).

Definition bind {A B} (m : M A) (k : A -> M B) : M B :=
  fun w =>
    match m w with
    | (Val a, w') => k a w'
    | (Raise e, w') => (Raise e, w')
    end.

Notation "x <- m ;; k" := (bind m (fun x => k))
  (at level 100, m at next level, right associativity).
Notation "m ;;; k" := (bind m (fun _ => k))
  (at level 100, right associativity).

(** [try: body except Exception as e: handler e]. *)
Definition try_except {A} (body : M A) (handler : Exn -> M A) : M A :=
  fun w =>
    match body w with
    | (Val a, w') => (Val a, w')
    | (Raise e, w') => handler e w'
    end.

(** [for x in l: body x]. *)
Fixpoint for_each {A} (l : list A) (body : A -> M unit) : M unit :=
  match l with
  | [] => ret tt
  | x :: l' => body x ;;; for_each l' body
  end.

Definition print (m : Message) : M unit :=
  fun w => (Val tt, log (EvPrint m) w).

(** ** The [os] calls *)

Definition os_path_exists (p : path) : M bool :=
  fun w => (Val (bool_decide (is_Some (node (files w) p))), w).

Definition os_path_join (d : path) (filename : string) : path := filename :: d.

Definition os_mkdir (p : path) : M unit :=
  fun w =>
    match p with
    | [] => (Raise FileExistsError, w)
    | _ :: parent =>
        match files w !! p with
        | Some _ => (Raise FileExistsError, w)
        | None =>
            match node (files w) parent with
            | None => (Raise FileNotFoundError, w)
            | Some (File _) => (Raise NotADirectoryError, w)
            | Some Dir => (Val tt, log (EvMkdir p) (store p Dir w))
            end
        end
    end.

(** [os.makedirs(name)]: create the missing ancestors, then the leaf; a
    [FileExistsError] of the recursive call is swallowed, one of the final
    [mkdir] is not. *)
Fixpoint os_makedirs (name : path) : M unit :=
  match name with
  | [] => os_mkdir name
  | _ :: head =>
      (match head with
       | [] => ret tt
       | _ :: _ =>
           head_exists <- os_path_exists head ;;
           if head_exists then ret tt
           else try_except (os_makedirs head)
                  (fun e => match e with
                            | FileExistsError => ret tt
                            | _ => raise e
                            end)
       end) ;;;
      os_mkdir name
  end.

(** ** The [Image] calls that touch the file system *)

(** [im.save(p, fmt)]: opens [p] for writing, which needs its directory to
    exist and [p] not to be a directory, and replaces what [p] held.  When
    the writer then fails, [save] closes the file, removes it if the call
    had created it, and lets the exception through: a file that existed
    is left truncated. *)
Definition Image_save (im : Image) (p : path) (fmt : SaveFormat) : M unit :=
  fun w =>
    match p with
    | [] => (Raise IsADirectoryError, w)
    | _ :: parent =>
        match node (files w) parent with
        | None => (Raise FileNotFoundError, w)
        | Some (File _) => (Raise NotADirectoryError, w)
        | Some Dir =>
            match files w !! p with
            | Some Dir => (Raise IsADirectoryError, w)
            | existing =>
                match encode im fmt with
                | Some data =>
                    (Val tt, log (EvSave p data) (store p (File data) w))
                | None =>
                    (Raise ValueError,
                     match existing with
                     | Some _ => store p (File Truncated) w
                     | None => w
                     end)
                end
            end
        end
    end.

Section Script.

(** The decoders of the imaging library are not modelled: what
    [Image.open] reads from a file's content is a parameter, [None] when
    the content is not an image the library can read. *)
Variable decoder : FileData -> option Image.

Definition Image_open (p : path) : M Image :=
  fun w =>
    let w' := log (EvOpen p) w in
    match node (files w) p with
    | None => (Raise FileNotFoundError, w')
    | Some Dir => (Raise IsADirectoryError, w')
    | Some (File d) =>
        match decoder d with
        | Some im => (Val im, w')
        | None => (Raise UnidentifiedImageError, w')
        end
    end.

(** ** The script *)

Definition png_files : list (string * Z) :=
  [ ("32x32.png", 32%Z);
    ("128x128.png", 128%Z);
    ("128x128@2x.png", 256%Z);
    ("icon.png", 512%Z) ].

Definition windows_tile_files : list (string * Z) :=
  [ ("Square30x30Logo.png", 30%Z);
    ("Square44x44Logo.png", 44%Z);
    ("Square71x71Logo.png", 71%Z);
    ("Square89x89Logo.png", 89%Z);
    ("Square107x107Logo.png", 107%Z);
    ("Square142x142Logo.png", 142%Z);
    ("Square150x150Logo.png", 150%Z);
    ("Square284x284Logo.png", 284%Z);
    ("Square310x310Logo.png", 310%Z);
    ("StoreLogo.png", 50%Z) ].

Definition ico_sizes : list (Z * Z) :=
  [ (16, 16); (32, 32); (48, 48); (64, 64); (128, 128); (256, 256) ]%Z.

(** The body of both [for filename, size in ....items()] loops. *)
Definition save_resized (img : Image) (output_dir : path)
    (entry : string * Z) : M unit :=
  let '(filename, size) := entry in
  let resized_img := resize img (size, size) LANCZOS in
  let save_path := os_path_join output_dir filename in
  Image_save resized_img save_path PNG ;;;
  print (MsgGenerated filename).

(** Everything after the image has been loaded (source lines 27 to 93). *)
Definition export_icons (img : Image) (output_dir : path) : M unit :=
  print MsgPngHeader ;;;
  for_each png_files (save_resized img output_dir) ;;;
  print MsgTileHeader ;;;
  for_each windows_tile_files (save_resized img output_dir) ;;;
  print MsgIcoHeader ;;;
  (let ico_path := os_path_join output_dir "icon.ico" in
   Image_save img ico_path (ICO ico_sizes) ;;;
   print (MsgIcoGenerated ico_sizes)) ;;;
  print MsgIcnsHeader ;;;
  (if ((512 <=? fst (size img))%Z && (512 <=? snd (size img))%Z)%bool then
     let icns_path := os_path_join output_dir "icon.icns" in
     Image_save img icns_path ICNS ;;;
     print MsgIcnsGenerated
   else
     print MsgIcnsWarning) ;;;
  print (MsgDone output_dir).

(** Step 2 (source lines 15 to 17): create the output directory when
    nothing exists at its path. *)
Definition make_output_dir (output_dir : path) : M unit :=
  out_exists <- os_path_exists output_dir ;;
  if negb out_exists then
    os_makedirs output_dir ;;;
    print (MsgCreatedDir output_dir)
  else ret tt.

(** The [try] block (source lines 19 to 25); [None] stands for the
    [return] of the [except] branch. *)
Definition open_source (source_image_path : path) : M (option Image) :=
  try_except
    (opened <- Image_open source_image_path ;;
     let img := convert opened ModeRGBA in
     print (MsgLoaded source_image_path (size img)) ;;;
     ret (Some img))
    (fun e => print (MsgCannotOpen e) ;;; ret None).

Definition generate_tauri_icons (source_image_path output_dir : path)
    : M unit :=
  src_exists <- os_path_exists source_image_path ;;
  if negb src_exists then
    print (MsgMissingSource source_image_path)
  else
    make_output_dir output_dir ;;;
    loaded <- open_source source_image_path ;;
    match loaded with
    | None => ret tt
    | Some img => export_icons img output_dir
    end.

(** ** The configuration block (source lines 96 to 101) *)

Definition SOURCE_IMAGE : path := ["dog.png"].

(** [generate_tauri_icons(SOURCE_IMAGE)], with the default
    [output_dir="icons"] of the signature. *)
Definition main : M unit :=
  generate_tauri_icons SOURCE_IMAGE ["icons"].

End Script.

(** ** Vocabulary of the claims *)

(** The events a run added to the world it started from. *)
Definition new_events (w w' : World) : list Event :=
  drop (length (events w)) (events w').

(** The paths written by [save], in order. *)
Definition saved_paths (evs : list Event) : list path :=
  omap (fun e => match e with EvSave p _ => Some p | _ => None end) evs.

(** The paths handed to [Image.open], in order. *)
Definition opened_paths (evs : list Event) : list path :=
  omap (fun e => match e with EvOpen p => Some p | _ => None end) evs.

(** The test of source line 85. *)
Definition large_enough (im : Image) : bool :=
  ((512 <=? fst (size im))%Z && (512 <=? snd (size im))%Z)%bool.

(** The smallest requested ICO size fits in the image, so that the ICO
    writer has an entry to write. *)
Definition ico_fits (im : Image) : bool :=
  ((16 <=? fst (size im))%Z && (16 <=? snd (size im))%Z)%bool.

(** The file names of the two tables, and of everything a run writes for
    an image. *)
Definition png_names : list string :=
  (png_files ++ windows_tile_files).*1.

Definition written_names (im : Image) : list string :=
  png_names ++ ["icon.ico"] ++ (if large_enough im then ["icon.icns"] else []).

(** Walking up from [p], the first node that exists is a directory: [p]
    is a directory already, or [os.makedirs] can make it one. *)
Fixpoint dir_available (fs : gmap path Node) (p : path) : bool :=
  match p with
  | [] => true
  | _ :: head =>
      match fs !! p with
      | Some Dir => true
      | Some (File _) => false
      | None => dir_available fs head
      end
  end.

(** Step 2 goes through: something exists at [p] already (and
    [os.makedirs] is not called), or the directory can be made. *)
Definition dir_step_passes (fs : gmap path Node) (p : path) : bool :=
  bool_decide (is_Some (node fs p)) || dir_available fs p.

Definition is_dir (n : option Node) : bool :=
  match n with Some Dir => true | _ => false end.

(** The directory can be had and no file to write is in the way as a
    directory. *)
Definition output_dir_usable (fs : gmap path Node) (out : path)
    (names : list string) : bool :=
  dir_available fs out
  && forallb (fun f => negb (is_dir (fs !! os_path_join out f))) names.

(** [fs'] is [fs] with some missing ancestors of [out] (or [out] itself)
    made directories. *)
Definition only_new_dirs (fs fs' : gmap path Node) (out : path) : Prop :=
  ∀ q, fs' !! q = fs !! q
       ∨ (fs !! q = None ∧ fs' !! q = Some Dir ∧ q `suffix_of` out).

Definition setup_event (e : Event) : Prop :=
  match e with
  | EvMkdir _ | EvPrint (MsgCreatedDir _) => True
  | _ => False
  end.

(** ** Closed forms of what a run writes and logs *)

(** [w] after a run that left the files [fs] and added the events [evs]. *)
Definition extend (w : World) (fs : gmap path Node) (evs : list Event) : World :=
  {| files := fs; events := events w ++ evs |}.

Fixpoint write_all (fs : gmap path Node) (l : list (path * FileData))
    : gmap path Node :=
  match l with
  | [] => fs
  | (p, d) :: l' => write_all (<[p := File d]> fs) l'
  end.

(** The content last written to [q] by [l], if any. *)
Fixpoint last_write (q : path) (l : list (path * FileData)) : option FileData :=
  match l with
  | [] => None
  | (p, d) :: l' =>
      match last_write q l' with
      | Some d' => Some d'
      | None => if decide (p = q) then Some d else None
      end
  end.

(** What the export writes, by file name and in order. *)
Definition png_write (img : Image) (entry : string * Z) : string * FileData :=
  (entry.1, PngFile (resize img (entry.2, entry.2) LANCZOS)).

Definition ico_write (img : Image) : string * FileData :=
  ("icon.ico", IcoFile (ico_entries img ico_sizes)).

Definition icns_write (img : Image) : string * FileData :=
  ("icon.icns", IcnsFile img).

Definition named_writes (img : Image) : list (string * FileData) :=
  map (png_write img) (png_files ++ windows_tile_files)
  ++ [ico_write img]
  ++ (if large_enough img then [icns_write img] else []).

Definition at_dir (out : path) (nd : string * FileData) : path * FileData :=
  (os_path_join out nd.1, nd.2).

Definition all_writes (img : Image) (out : path) : list (path * FileData) :=
  map (at_dir out) (named_writes img).

(** The content last written under the name [f] by [l], if any. *)
Fixpoint last_named (f : string) (l : list (string * FileData)) : option FileData :=
  match l with
  | [] => None
  | (g, d) :: l' =>
      match last_named f l' with
      | Some d' => Some d'
      | None => if decide (g = f) then Some d else None
      end
  end.

Definition save_events (out : path) (nd : string * FileData) : list Event :=
  [EvSave (os_path_join out nd.1) nd.2].

Definition png_events (img : Image) (out : path) (table : list (string * Z))
    : list Event :=
  flat_map (fun entry => save_events out (png_write img entry)
                         ++ [EvPrint (MsgGenerated entry.1)]) table.

Definition export_events (img : Image) (out : path) : list Event :=
  [EvPrint MsgPngHeader] ++ png_events img out png_files
  ++ [EvPrint MsgTileHeader] ++ png_events img out windows_tile_files
  ++ [EvPrint MsgIcoHeader] ++ save_events out (ico_write img)
  ++ [EvPrint (MsgIcoGenerated ico_sizes); EvPrint MsgIcnsHeader]
  ++ (if large_enough img
      then save_events out (icns_write img) ++ [EvPrint MsgIcnsGenerated]
      else [EvPrint MsgIcnsWarning])
  ++ [EvPrint (MsgDone out)].

(** The directory is there and no name of [names] is a directory in it:
    what [save] needs. *)
Definition ready (fs : gmap path Node) (out : path) (names : list string) : Prop :=
  node fs out = Some Dir ∧ ∀ f, f ∈ names → fs !! os_path_join out f ≠ Some Dir.

(** The file set as the specification enumerates it: the four generic
    PNGs, the ten tile and store PNGs, the Windows container and the macOS
    container. *)
Definition full_file_set : list string :=
  [ "32x32.png"; "128x128.png"; "128x128@2x.png"; "icon.png";
    "Square30x30Logo.png"; "Square44x44Logo.png"; "Square71x71Logo.png";
    "Square89x89Logo.png"; "Square107x107Logo.png"; "Square142x142Logo.png";
    "Square150x150Logo.png"; "Square284x284Logo.png"; "Square310x310Logo.png";
    "StoreLogo.png";
    "icon.ico"; "icon.icns" ].

(** A decoder and some worlds to run the routine on: [dog.png] holds an
    image of the size its content names, [notes.txt] is not an image. *)
Definition sample_decoder (d : FileData) : option Image :=
  match d with
  | Raw "1024x1024" => Some (Decoded 1024 1024 ModeRGB 1)
  | Raw "1024x400" => Some (Decoded 1024 400 ModeRGB 2)
  | Raw "100x100" => Some (Decoded 100 100 ModeP 3)
  | Raw "15x15" => Some (Decoded 15 15 ModeRGB 4)
  | Raw "1024x10" => Some (Decoded 1024 10 ModeRGB 5)
  | PngFile im => Some im
  | _ => None
  end.

Definition sample_world (content : string) : World :=
  {| files := {[ ["dog.png"] := File (Raw content);
                 ["notes.txt"] := File (Raw "to do") ]};
     events := [] |}.

(** The run on a 100 by 100 source, and the run on the text file. *)
Definition small_source_run : Res unit * World :=
  generate_tauri_icons sample_decoder ["dog.png"] ["icons"]
    (sample_world "100x100").

Definition text_source_run : Res unit * World :=
  generate_tauri_icons sample_decoder ["notes.txt"] ["icons"]
    (sample_world "1024x1024").

(** The runs on a 15 by 15 source and on a 1024 by 10 source. *)
Definition tiny_source_run : Res unit * World :=
  generate_tauri_icons sample_decoder ["dog.png"] ["icons"]
    (sample_world "15x15").

Definition flat_source_run : Res unit * World :=
  generate_tauri_icons sample_decoder ["dog.png"] ["icons"]
    (sample_world "1024x10").

(** The run whose output path is the text file. *)
Definition blocked_run : Res unit * World :=
  generate_tauri_icons sample_decoder ["dog.png"] ["notes.txt"]
    (sample_world "1024x1024").

(** A world whose source is [icons/icon.png], one of the files the run
    writes, and the runs on it. *)
Definition overwritten_world : World :=
  {| files := {[ ["icons"] := Dir;
                 ["icon.png"; "icons"] := File (Raw "1024x1024") ]};
     events := [] |}.

Definition overwritten_first_run : Res unit * World :=
  generate_tauri_icons sample_decoder ["icon.png"; "icons"] ["icons"]
    overwritten_world.

Definition overwritten_second_run : Res unit * World :=
  generate_tauri_icons sample_decoder ["icon.png"; "icons"] ["icons"]
    overwritten_first_run.2.

(** The file set without the macOS container. *)
Definition file_set_without_icns : list string := take 15 full_file_set.

(** What [save] wrote comes from [img]: the image itself or a resize of
    it, in RGBA. *)
Definition from_image (img : Image) (e : Event) : Prop :=
  match e with
  | EvSave _ d =>
      sources d ≠ []
      ∧ Forall (λ x, (x = img ∨ ∃ sz f, x = resize img sz f)
                     ∧ mode x = ModeRGBA) (sources d)
  | _ => True
  end.

(** [Image.open] fails on [n]: a directory, or a file the library cannot
    read. *)
Definition unreadable (decoder : FileData → option Image) (n : Node) : Prop :=
  match n with
  | Dir => True
  | File d => decoder d = None
  end.

(** ** Vocabulary for runs of any outcome *)

(** What a run whose events satisfy [P] may do to the node at a path:
    leave it, make a missing ancestor of [out] (or [out]) a directory, or
    put a file at one of the output paths where no directory was. *)
Definition touched_ok (P : Event → Prop) (out : path)
    (fs fs' : gmap path Node) : Prop :=
  ∀ q, fs' !! q = fs !! q
       ∨ (q ≠ [] ∧ fs !! q = None ∧ fs' !! q = Some Dir ∧ q `suffix_of` out)
       ∨ (∃ f c, q = os_path_join out f ∧ f ∈ full_file_set
                 ∧ fs' !! q = Some (File c) ∧ fs !! q ≠ Some Dir
                 ∧ P (EvSave q c)).

(** [w'] comes after [w]: the nodes changed as [touched_ok] allows, the
    events of [w] were extended by events satisfying [P], and every path
    saved in between holds a file in [w']. *)
Definition grows (P : Event → Prop) (out : path) (w w' : World) : Prop :=
  touched_ok P out (files w) (files w')
  ∧ ∃ evs, events w' = events w ++ evs
           ∧ Forall P evs
           ∧ ∀ p, p ∈ saved_paths evs → ∃ c, files w' !! p = Some (File c).

(** Every run of [m] grows the world, and raises only exceptions of [E]. *)
Definition keeps {A} (P : Event → Prop) (E : Exn → Prop) (out : path)
    (m : M A) : Prop :=
  ∀ w, grows P out w (m w).2 ∧ ∀ e, (m w).1 = Raise e → E e.

(** The events of the export: saves at output paths, and messages. *)
Definition export_event (out : path) (e : Event) : Prop :=
  match e with
  | EvSave p _ => p ∈ map (os_path_join out) full_file_set
  | EvPrint _ => True
  | _ => False
  end.

(** The exceptions [os.makedirs] raises. *)
Definition os_error (e : Exn) : Prop :=
  match e with
  | FileNotFoundError | FileExistsError | NotADirectoryError => True
  | _ => False
  end.

(** The exceptions [save] raises: those of opening the file, and the
    writer's [ValueError]. *)
Definition save_error (e : Exn) : Prop :=
  match e with
  | FileNotFoundError | NotADirectoryError | IsADirectoryError
  | ValueError => True
  | _ => False
  end.

(** The exceptions that leave the routine: all but the decoder's. *)
Definition run_error (e : Exn) : Prop :=
  match e with
  | UnidentifiedImageError => False
  | _ => True
  end.

(** The events of a whole run: as [export_event], and the setup and the
    opening of the source. *)
Definition run_event (out : path) (e : Event) : Prop :=
  match e with
  | EvSave p _ => p ∈ map (os_path_join out) full_file_set
  | _ => True
  end.

Definition not_done (e : Event) : Prop :=
  match e with
  | EvPrint (MsgDone _) => False
  | _ => True
  end.

(** [m] saves the paths [L] in order when it returns, and an initial
    segment of [L] short of at least one path when it raises; the closing
    message is among its events exactly when [fin] is set and it returns. *)
Definition saves_spec {A} (out : path) (fin : bool) (L : list path)
    (m : M A) : Prop :=
  ∀ w, ∃ evs,
    events (m w).2 = events w ++ evs
    ∧ match (m w).1 with
      | Val _ =>
          saved_paths evs = L
          ∧ (if fin then EvPrint (MsgDone out) ∈ evs else Forall not_done evs)
      | Raise _ =>
          Forall not_done evs ∧ ∃ rest, rest ≠ [] ∧ L = saved_paths evs ++ rest
      end.

(** Every run of [m] extends the events by events satisfying [P]. *)
Definition emits (P : Event → Prop) {A} (m : M A) : Prop :=
  ∀ w, ∃ evs, events (m w).2 = events w ++ evs ∧ Forall P evs.

(** Every run of [m] leaves the nodes outside the paths [S] as they are. *)
Definition changes_only (S : list path) {A} (m : M A) : Prop :=
  ∀ w, (∀ q, q ∉ S → files (m w).2 !! q = files w !! q)
       ∧ ∃ evs, events (m w).2 = events w ++ evs.

(** The export from the ICO header on (source lines 72 to 93). *)
Definition export_containers (img : Image) (output_dir : path) : M unit :=
  print MsgIcoHeader ;;;
  (let ico_path := os_path_join output_dir "icon.ico" in
   Image_save img ico_path (ICO ico_sizes) ;;;
   print (MsgIcoGenerated ico_sizes)) ;;;
  print MsgIcnsHeader ;;;
  (if ((512 <=? fst (size img))%Z && (512 <=? snd (size img))%Z)%bool then
     let icns_path := os_path_join output_dir "icon.icns" in
     Image_save img icns_path ICNS ;;;
     print MsgIcnsGenerated
   else
     print MsgIcnsWarning) ;;;
  print (MsgDone output_dir).

(** The source decodes to [im0] in the files [fs]. *)
Definition decodes_to (decoder : FileData → option Image)
    (fs : gmap path Node) (src : path) (im0 : Image) : Prop :=
  ∃ d, node fs src = Some (File d) ∧ decoder d = Some im0.

(** A world in which [icons/icon.ico] is a directory. *)
Definition sample_world_with_ico_dir : World :=
  {| files := {[ ["dog.png"] := File (Raw "1024x1024");
                 ["icons"] := Dir;
                 ["icon.ico"; "icons"] := Dir ]};
     events := [] |}.

(** ** Lemmas on the monad and the world *)

Lemma bind_Val {A B} (m : M A) (k : A → M B) w a w' :
  m w = (Val a, w') → bind m k w = k a w'.
Proof. intros H. unfold bind. by rewrite H. Qed.

Lemma extend_extend w fs1 e1 fs2 e2 :
  extend (extend w fs1 e1) fs2 e2 = extend w fs2 (e1 ++ e2).
Proof. unfold extend. simpl. by rewrite app_assoc. Qed.

Lemma extend_id w : extend w (files w) [] = w.
Proof. destruct w. unfold extend. simpl. by rewrite app_nil_r. Qed.

Lemma new_events_extend w fs evs : new_events w (extend w fs evs) = evs.
Proof. unfold new_events, extend. simpl. by rewrite drop_app_length. Qed.

Lemma print_run m w : print m w = (Val tt, extend w (files w) [EvPrint m]).
Proof. reflexivity. Qed.

Lemma join_ne_dir out f : os_path_join out f ≠ out.
Proof.
  unfold os_path_join. intros H.
  apply (f_equal length) in H. simpl in H. lia.
Qed.

Lemma node_cons fs c p : node fs (c :: p) = fs !! (c :: p).
Proof. reflexivity. Qed.

Lemma node_insert_ne fs p q n :
  p ≠ q → node (<[p := n]> fs) q = node fs q.
Proof.
  intros Hne. destruct q; [done |]. rewrite !node_cons.
  by rewrite lookup_insert_ne.
Qed.

Lemma ready_write fs out names f d :
  ready fs out names →
  ready (<[os_path_join out f := File d]> fs) out names.
Proof.
  intros [Hd Hn]. split.
  - rewrite node_insert_ne; [done | apply join_ne_dir].
  - intros g Hg. rewrite lookup_insert. case_decide; [done | by apply Hn].
Qed.

Lemma ready_weaken fs out names names' :
  names' ⊆ names → ready fs out names → ready fs out names'.
Proof. intros Hs [Hd Hn]. split; [done |]. intros f Hf. apply Hn, Hs, Hf. Qed.

Lemma save_run im out f fmt data names w :
  ready (files w) out names → f ∈ names → encode im fmt = Some data →
  Image_save im (os_path_join out f) fmt w
  = (Val tt, extend w (<[os_path_join out f := File data]> (files w))
               [EvSave (os_path_join out f) data]).
Proof.
  intros [Hd Hn] Hf He. unfold Image_save, os_path_join in *. rewrite Hd, He.
  specialize (Hn f Hf).
  destruct (files w !! (f :: out)) as [[|d]|] eqn:E; done.
Qed.

Lemma ico_keeps_spec original s :
  ico_keeps original s = true
  ↔ (fst s ≤ fst original)%Z ∧ (snd s ≤ snd original)%Z
    ∧ (fst s ≤ 256)%Z ∧ (snd s ≤ 256)%Z.
Proof.
  unfold ico_keeps. rewrite negb_true_iff, !orb_false_iff, !Z.ltb_ge. tauto.
Qed.

Lemma ico_fits_spec im :
  ico_fits im = true ↔ (16 ≤ fst (size im))%Z ∧ (16 ≤ snd (size im))%Z.
Proof. unfold ico_fits. by rewrite andb_true_iff, !Z.leb_le. Qed.

(** The ICO writer has something to write exactly when the image is at
    least 16 by 16. *)
Lemma encode_ico_fits im :
  ico_fits im = true →
  encode im (ICO ico_sizes) = Some (IcoFile (ico_entries im ico_sizes)).
Proof.
  intros Hfit. apply ico_fits_spec in Hfit.
  assert (Hk : ico_keeps (size im) (16, 16)%Z = true).
  { apply ico_keeps_spec. simpl. lia. }
  unfold encode, ico_entries, ico_sizes. simpl List.filter. by rewrite Hk.
Qed.

Lemma encode_ico_too_small im :
  ico_fits im = false → encode im (ICO ico_sizes) = None.
Proof.
  intros Hfit.
  assert (Hall : ∀ s, In s ico_sizes → ico_keeps (size im) s = false).
  { intros s Hs. apply not_true_is_false. rewrite ico_keeps_spec.
    intros (? & ? & _). apply not_true_iff_false in Hfit. apply Hfit.
    apply ico_fits_spec. simpl in Hs.
    repeat (destruct Hs as [<- | Hs]; [simpl in *; lia |]). done. }
  unfold encode, ico_entries.
  replace (List.filter (ico_keeps (size im)) ico_sizes) with (@nil (Z * Z)); [done |].
  symmetry. revert Hall. generalize ico_sizes. intros l.
  induction l as [|s l IH]; intros Hall; [done |].
  simpl. rewrite Hall by (by left). apply IH. intros s' Hs'. apply Hall. by right.
Qed.

Lemma save_resized_run img out entry names w :
  ready (files w) out names → entry.1 ∈ names →
  save_resized img out entry w
  = (Val tt, extend w (<[(at_dir out (png_write img entry)).1
                          := File (png_write img entry).2]> (files w))
               (png_events img out [entry])).
Proof.
  intros Hr Hin. destruct entry as [filename sz]. unfold save_resized.
  erewrite bind_Val; [| by eapply save_run].
  rewrite print_run, extend_extend. reflexivity.
Qed.

Lemma png_events_cons img out entry table :
  png_events img out (entry :: table)
  = png_events img out [entry] ++ png_events img out table.
Proof. reflexivity. Qed.

Lemma for_each_save_run img out names table w :
  ready (files w) out names → table.*1 ⊆ names →
  for_each table (save_resized img out) w
  = (Val tt, extend w (write_all (files w) (map (at_dir out) (map (png_write img) table)))
               (png_events img out table)).
Proof.
  revert w. induction table as [|entry table IH]; intros w Hr Hsub.
  - simpl. unfold ret. by rewrite extend_id.
  - simpl for_each. erewrite bind_Val.
    2:{ eapply save_resized_run; [done |]. apply Hsub. simpl. left. }
    rewrite IH.
    + rewrite extend_extend. destruct entry. reflexivity.
    + simpl. by apply ready_write.
    + intros f Hf. apply Hsub. simpl. by right.
Qed.

Lemma ready_write_all fs out names l :
  ready fs out names → ready (write_all fs (map (at_dir out) l)) out names.
Proof.
  revert fs. induction l as [|[f d] l IH]; intros fs Hr; [done |].
  simpl. apply IH. by apply ready_write.
Qed.

Lemma write_all_app fs l1 l2 :
  write_all fs (l1 ++ l2) = write_all (write_all fs l1) l2.
Proof.
  revert fs. induction l1 as [|[p d] l1 IH]; intros fs; [done |].
  simpl. apply IH.
Qed.

Lemma files_extend w fs evs : files (extend w fs evs) = fs.
Proof. reflexivity. Qed.

Lemma export_icons_run img out w :
  ready (files w) out (written_names img) → ico_fits img = true →
  export_icons img out w
  = (Val tt, extend w (write_all (files w) (all_writes img out))
               (export_events img out)).
Proof.
  intros Hr Hfit. unfold export_icons.
  assert (Hpng : ready (files w) out png_names).
  { eapply ready_weaken; [| exact Hr]. unfold written_names.
    intros f Hf. apply elem_of_app. by left. }
  assert (Hico : "icon.ico" ∈ written_names img).
  { unfold written_names. apply elem_of_app. right. left. }
  rewrite (bind_Val _ _ _ _ _ (print_run _ _)).
  erewrite bind_Val.
  2:{ eapply for_each_save_run; [exact Hpng |]. unfold png_names.
      rewrite fmap_app. intros f Hf. apply elem_of_app. by left. }
  rewrite extend_extend.
  rewrite (bind_Val _ _ _ _ _ (print_run _ _)), extend_extend.
  erewrite bind_Val.
  2:{ eapply for_each_save_run.
      - rewrite !files_extend. apply ready_write_all. exact Hpng.
      - unfold png_names. rewrite fmap_app. intros f Hf.
        apply elem_of_app. by right. }
  rewrite extend_extend.
  rewrite (bind_Val _ _ _ _ _ (print_run _ _)), extend_extend.
  erewrite bind_Val.
  2:{ erewrite bind_Val.
      2:{ eapply save_run; [| exact Hico | by apply encode_ico_fits].
          rewrite !files_extend.
          rewrite <- write_all_app, <- !map_app.
          apply ready_write_all. exact Hr. }
      rewrite extend_extend. apply print_run. }
  rewrite extend_extend.
  rewrite (bind_Val _ _ _ _ _ (print_run _ _)), extend_extend.
  unfold all_writes, named_writes, export_events, written_names in *.
  fold (large_enough img) in *.
  destruct (large_enough img) eqn:Hbig.
  - erewrite bind_Val.
    2:{ erewrite bind_Val.
        2:{ eapply save_run.
            - rewrite !files_extend. apply ready_write.
              rewrite <- write_all_app, <- !map_app.
              apply ready_write_all. exact Hr.
            - apply elem_of_app. right. right. left.
            - reflexivity. }
        rewrite extend_extend. apply print_run. }
    rewrite extend_extend, print_run, extend_extend.
    rewrite !files_extend. reflexivity.
  - rewrite (bind_Val _ _ _ _ _ (print_run _ _)), extend_extend.
    rewrite print_run, extend_extend.
    rewrite !files_extend. reflexivity.
Qed.

(** ** Step 2: the output directory *)

Lemma only_new_dirs_refl fs out : only_new_dirs fs fs out.
Proof. intros q. by left. Qed.

Lemma os_mkdir_run c head w :
  files w !! (c :: head) = None → node (files w) head = Some Dir →
  os_mkdir (c :: head) w
  = (Val tt, extend w (<[c :: head := Dir]> (files w)) [EvMkdir (c :: head)]).
Proof. intros Hnone Hdir. unfold os_mkdir. by rewrite Hnone, Hdir. Qed.

Lemma not_suffix_cons (c : string) (p : path) : ¬ (c :: p) `suffix_of` p.
Proof. intros H. apply suffix_length in H. simpl in H. lia. Qed.

Lemma os_makedirs_run p w :
  p ≠ [] → files w !! p = None → dir_available (files w) p = true →
  ∃ fs' evs,
    os_makedirs p w = (Val tt, extend w fs' evs)
    ∧ fs' !! p = Some Dir
    ∧ only_new_dirs (files w) fs' p
    ∧ Forall setup_event evs.
Proof.
  revert w. induction p as [|c head IH]; intros w Hne Hnone Hav; [done |].
  simpl in Hav. rewrite Hnone in Hav.
  assert (Hleaf : ∀ fs1 evs1,
    node fs1 head = Some Dir → only_new_dirs (files w) fs1 head →
    Forall setup_event evs1 →
    ∃ fs' evs,
      os_mkdir (c :: head) (extend w fs1 evs1) = (Val tt, extend w fs' evs)
      ∧ fs' !! (c :: head) = Some Dir
      ∧ only_new_dirs (files w) fs' (c :: head)
      ∧ Forall setup_event evs).
  { intros fs1 evs1 Hdir Hnew Hev.
    assert (Hn1 : fs1 !! (c :: head) = None).
    { destruct (Hnew (c :: head)) as [-> | (_ & _ & Hs)]; [done |].
      by apply not_suffix_cons in Hs. }
    exists (<[c :: head := Dir]> fs1), (evs1 ++ [EvMkdir (c :: head)]).
    split; [| split; [| split]].
    - rewrite os_mkdir_run by done. by rewrite extend_extend.
    - apply lookup_insert_eq.
    - intros q. rewrite lookup_insert. case_decide as Hq.
      + subst q. right. done.
      + destruct (Hnew q) as [-> | (? & ? & ?)]; [by left |].
        right. split; [done |]. split; [done |]. by apply suffix_cons_r.
    - apply Forall_app. split; [done |]. by apply Forall_singleton. }
  change (os_makedirs (c :: head)) with
    ((match head with
      | [] => ret tt
      | _ :: _ =>
          head_exists <- os_path_exists head ;;
          if head_exists then ret tt
          else try_except (os_makedirs head)
                 (fun e => match e with
                           | FileExistsError => ret tt
                           | _ => raise e
                           end)
      end) ;;; os_mkdir (c :: head)).
  destruct head as [|c' head'].
  - destruct (Hleaf (files w) []) as (fs' & evs & Hrun & Hrest);
      [done | apply only_new_dirs_refl | constructor |].
    rewrite extend_id in Hrun. exists fs', evs. split; [| done].
    unfold bind, ret. exact Hrun.
  - unfold bind at 1. unfold bind at 1. unfold os_path_exists at 1.
    rewrite node_cons.
    destruct (files w !! (c' :: head')) as [n|] eqn:Ehead.
    + rewrite bool_decide_eq_true_2 by eauto. unfold ret.
      destruct (Hleaf (files w) []) as (fs' & evs & Hrun & Hrest);
        [| apply only_new_dirs_refl | constructor |].
      { rewrite node_cons, Ehead.
        simpl in Hav. rewrite Ehead in Hav. by destruct n. }
      rewrite extend_id in Hrun. exists fs', evs. split; [| done].
      exact Hrun.
    + rewrite bool_decide_eq_false_2 by (intros [? ?]; done).
      destruct (IH w) as (fs1 & evs1 & Hrun & Hdir & Hnew & Hev); [done.. |].
      unfold try_except. rewrite Hrun. by apply Hleaf.
Qed.

Lemma make_output_dir_run out w :
  dir_step_passes (files w) out = true →
  ∃ fs1 mk,
    make_output_dir out w = (Val tt, extend w fs1 mk)
    ∧ only_new_dirs (files w) fs1 out
    ∧ Forall setup_event mk
    ∧ (is_Some (node (files w) out) → fs1 = files w ∧ mk = [])
    ∧ (dir_available (files w) out = true → node fs1 out = Some Dir).
Proof.
  intros Hpass. unfold make_output_dir, bind, os_path_exists.
  destruct (decide (is_Some (node (files w) out))) as [Hex | Hnex].
  - rewrite bool_decide_eq_true_2 by done. simpl. unfold ret.
    exists (files w), []. rewrite extend_id.
    split; [done |]. split; [apply only_new_dirs_refl |].
    split; [constructor |]. split; [done |].
    intros Hav. destruct out as [|c head]; [done |].
    rewrite node_cons in *. simpl in Hav.
    destruct Hex as [n Hn]. rewrite Hn in *. by destruct n.
  - rewrite bool_decide_eq_false_2 by done. simpl.
    unfold dir_step_passes in Hpass.
    rewrite bool_decide_eq_false_2 in Hpass by done. simpl in Hpass.
    destruct out as [|c head]; [by destruct Hnex; eexists |].
    assert (Hnone : files w !! (c :: head) = None).
    { rewrite node_cons in Hnex. by apply eq_None_not_Some. }
    destruct (os_makedirs_run (c :: head) w) as (fs1 & evs1 & Hrun & Hdir & Hnew & Hev);
      [done.. |].
    rewrite Hrun, print_run, extend_extend.
    exists fs1, (evs1 ++ [EvPrint (MsgCreatedDir (c :: head))]).
    split; [done |]. split; [done |].
    split; [apply Forall_app; split; [done | by apply Forall_singleton] |].
    split; [intros; contradiction | done].
Qed.

(** ** The [try] block *)

Section Runs.

Variable decoder : FileData → option Image.

Lemma open_source_ok src d im0 w :
  node (files w) src = Some (File d) → decoder d = Some im0 →
  open_source decoder src w
  = (Val (Some (convert im0 ModeRGBA)),
     extend w (files w)
       [EvOpen src; EvPrint (MsgLoaded src (size (convert im0 ModeRGBA)))]).
Proof.
  intros Hn Hd. unfold open_source, try_except, bind, Image_open.
  rewrite Hn, Hd. unfold print, ret, log, extend. simpl.
  by rewrite <- app_assoc.
Qed.

Lemma open_source_fails src n w :
  node (files w) src = Some n → unreadable decoder n →
  ∃ e, open_source decoder src w
       = (Val None, extend w (files w) [EvOpen src; EvPrint (MsgCannotOpen e)]).
Proof.
  intros Hn Hu. unfold open_source, try_except, bind, Image_open.
  rewrite Hn. destruct n as [|d]; simpl in Hu.
  - exists IsADirectoryError. unfold print, ret, log, extend. simpl.
    by rewrite <- app_assoc.
  - rewrite Hu. exists UnidentifiedImageError.
    unfold print, ret, log, extend. simpl. by rewrite <- app_assoc.
Qed.

End Runs.

(** ** Reading back what was written *)

Lemma lookup_write_all fs l q :
  write_all fs l !! q
  = match last_write q l with
    | Some d => Some (File d)
    | None => fs !! q
    end.
Proof.
  revert fs. induction l as [|[p d] l IH]; intros fs; [done |].
  simpl. rewrite IH. destruct (last_write q l); [done |].
  rewrite lookup_insert. by destruct (decide (p = q)).
Qed.

Lemma last_write_at_dir out f l :
  last_write (os_path_join out f) (map (at_dir out) l) = last_named f l.
Proof.
  induction l as [|[g d] l IH]; [done |].
  simpl. rewrite IH. destruct (last_named f l); [done |].
  unfold os_path_join. simpl.
  destruct (decide (g = f)) as [-> | Hne].
  - by rewrite decide_True.
  - rewrite decide_False; [done |]. intros H. by inversion H.
Qed.

Lemma last_write_elem q l d : last_write q l = Some d → (q, d) ∈ l.
Proof.
  induction l as [|[p d'] l IH]; [done |]. simpl.
  destruct (last_write q l) eqn:E.
  - intros [= <-]. right. by apply IH.
  - destruct (decide (p = q)) as [-> |]; [| done]. intros [= <-]. left.
Qed.

Lemma last_named_is_Some f l : f ∈ l.*1 → is_Some (last_named f l).
Proof.
  induction l as [|[g d] l IH]; simpl.
  - intros H. by apply elem_of_nil in H.
  - intros H. destruct (last_named f l) eqn:E; [eauto |].
    apply elem_of_cons in H as [<- | H].
    + rewrite decide_True by done. eauto.
    + destruct (IH H) as [? ?]. done.
Qed.

Lemma named_writes_names img : (named_writes img).*1 = written_names img.
Proof.
  unfold named_writes, written_names. destruct (large_enough img); reflexivity.
Qed.

Lemma lookup_all_writes img out fs f :
  write_all fs (all_writes img out) !! os_path_join out f
  = match last_named f (named_writes img) with
    | Some d => Some (File d)
    | None => fs !! os_path_join out f
    end.
Proof. unfold all_writes. by rewrite lookup_write_all, last_write_at_dir. Qed.

(** A path the export did not write keeps its node. *)
Lemma lookup_all_writes_other img out fs q :
  (∀ f, f ∈ written_names img → q ≠ os_path_join out f) →
  write_all fs (all_writes img out) !! q = fs !! q.
Proof.
  intros Hq. rewrite lookup_write_all.
  destruct (last_write q (all_writes img out)) as [d|] eqn:E; [| done].
  apply last_write_elem in E. unfold all_writes in E.
  apply list_elem_of_fmap in E as ([f d'] & Heq & Hin).
  unfold at_dir in Heq. simpl in Heq. injection Heq as -> ->.
  exfalso. apply (Hq f); [| done].
  rewrite <- named_writes_names. apply list_elem_of_fmap.
  by exists (f, d').
Qed.

Lemma setup_saved mk : Forall setup_event mk → saved_paths mk = [].
Proof.
  induction 1 as [|e mk He _ IH]; [done |].
  destruct e as [| | |[]]; simpl in He; try done; exact IH.
Qed.

Lemma setup_opened mk : Forall setup_event mk → opened_paths mk = [].
Proof.
  induction 1 as [|e mk He _ IH]; [done |].
  destruct e as [| | |[]]; simpl in He; try done; exact IH.
Qed.

(** ** The three ways a run ends *)

Section Outcomes.

Variable decoder : FileData → option Image.

Lemma generate_missing src out w :
  node (files w) src = None →
  generate_tauri_icons decoder src out w
  = (Val tt, extend w (files w) [EvPrint (MsgMissingSource src)]).
Proof.
  intros Hn. unfold generate_tauri_icons, bind, os_path_exists.
  rewrite Hn. rewrite bool_decide_eq_false_2 by (intros [? ?]; done).
  reflexivity.
Qed.

Lemma generate_unreadable src out n w :
  node (files w) src = Some n → unreadable decoder n →
  dir_step_passes (files w) out = true →
  ∃ fs1 mk e,
    generate_tauri_icons decoder src out w
    = (Val tt, extend w fs1 (mk ++ [EvOpen src; EvPrint (MsgCannotOpen e)]))
    ∧ only_new_dirs (files w) fs1 out
    ∧ Forall setup_event mk
    ∧ (is_Some (node (files w) out) → fs1 = files w ∧ mk = []).
Proof.
  intros Hn Hu Hpass.
  destruct (make_output_dir_run out w Hpass)
    as (fs1 & mk & Hmk & Hnew & Hev & Hsame & _).
  assert (Hn1 : node fs1 src = Some n).
  { destruct src as [|c s]; [done |]. rewrite node_cons in *.
    destruct (Hnew (c :: s)) as [-> | (Hnone & _)]; congruence. }
  destruct (open_source_fails decoder src n (extend w fs1 mk)) as [e He];
    [done.. |].
  exists fs1, mk, e. split; [| done].
  unfold generate_tauri_icons. unfold bind at 1. unfold os_path_exists at 1.
  rewrite Hn, bool_decide_eq_true_2 by eauto. cbn [negb].
  rewrite (bind_Val _ _ _ _ _ Hmk), (bind_Val _ _ _ _ _ He).
  by rewrite extend_extend.
Qed.

Lemma generate_exports src out d im0 w :
  node (files w) src = Some (File d) → decoder d = Some im0 →
  output_dir_usable (files w) out (written_names im0) = true →
  ico_fits im0 = true →
  ∃ fs1 mk,
    generate_tauri_icons decoder src out w
    = (Val tt,
       extend w (write_all fs1 (all_writes (convert im0 ModeRGBA) out))
         (mk ++ [EvOpen src; EvPrint (MsgLoaded src (size im0))]
             ++ export_events (convert im0 ModeRGBA) out))
    ∧ only_new_dirs (files w) fs1 out
    ∧ Forall setup_event mk
    ∧ (is_Some (node (files w) out) → fs1 = files w ∧ mk = [])
    ∧ ready fs1 out (written_names im0).
Proof.
  intros Hn Hd Huse Hfit. unfold output_dir_usable in Huse.
  apply andb_prop in Huse as [Hav Hfree].
  assert (Hpass : dir_step_passes (files w) out = true).
  { unfold dir_step_passes. rewrite Hav. apply orb_true_r. }
  destruct (make_output_dir_run out w Hpass)
    as (fs1 & mk & Hmk & Hnew & Hev & Hsame & Hdir).
  assert (Hn1 : node fs1 src = Some (File d)).
  { destruct src as [|c s]; [done |]. rewrite node_cons in *.
    destruct (Hnew (c :: s)) as [-> | (Hnone & _)]; congruence. }
  assert (Hready : ready fs1 out (written_names im0)).
  { split; [by apply Hdir |]. intros f Hf.
    rewrite forallb_forall in Hfree.
    specialize (Hfree f (proj1 (list_elem_of_In _ _) Hf)).
    destruct (Hnew (os_path_join out f)) as [-> | (_ & _ & Hs)].
    - intros E. rewrite E in Hfree. done.
    - by apply not_suffix_cons in Hs. }
  exists fs1, mk. split; [| done].
  unfold generate_tauri_icons. unfold bind at 1. unfold os_path_exists at 1.
  rewrite Hn, bool_decide_eq_true_2 by eauto. cbn [negb].
  rewrite (bind_Val _ _ _ _ _ Hmk).
  erewrite bind_Val by (by eapply open_source_ok).
  rewrite extend_extend, export_icons_run by done.
  rewrite extend_extend, files_extend, <- app_assoc. reflexivity.
Qed.

End Outcomes.

(** ** A successful run, summarised *)

Lemma saved_paths_app l1 l2 : saved_paths (l1 ++ l2) = saved_paths l1 ++ saved_paths l2.
Proof. apply omap_app. Qed.

Lemma opened_paths_app l1 l2 :
  opened_paths (l1 ++ l2) = opened_paths l1 ++ opened_paths l2.
Proof. apply omap_app. Qed.

Lemma saved_paths_export img out :
  saved_paths (export_events img out) = map (os_path_join out) (written_names img).
Proof.
  unfold export_events, written_names. destruct (large_enough img); reflexivity.
Qed.

Lemma opened_paths_export img out : opened_paths (export_events img out) = [].
Proof. unfold export_events. destruct (large_enough img); reflexivity. Qed.

Lemma large_enough_true im :
  (512 ≤ fst (size im))%Z → (512 ≤ snd (size im))%Z → large_enough im = true.
Proof.
  intros H1 H2. unfold large_enough.
  apply andb_true_intro. split; by apply Z.leb_le.
Qed.

Lemma large_enough_false im :
  (fst (size im) < 512)%Z ∨ (snd (size im) < 512)%Z → large_enough im = false.
Proof.
  intros H. unfold large_enough. apply andb_false_iff.
  destruct H; [left | right]; by apply Z.leb_gt.
Qed.

Section Summary.

Variable decoder : FileData → option Image.

(** The result of a run whose source decodes to [im0], in a usable
    output directory. *)
Lemma generate_exports_summary src out d im0 w :
  node (files w) src = Some (File d) → decoder d = Some im0 →
  output_dir_usable (files w) out (written_names im0) = true →
  ico_fits im0 = true →
  ∃ w' mk,
    generate_tauri_icons decoder src out w = (Val tt, w')
    ∧ new_events w w'
      = mk ++ [EvOpen src; EvPrint (MsgLoaded src (size im0))]
           ++ export_events (convert im0 ModeRGBA) out
    ∧ Forall setup_event mk
    ∧ (∀ f c, last_named f (named_writes (convert im0 ModeRGBA)) = Some c →
              files w' !! os_path_join out f = Some (File c))
    ∧ (∀ q, (∀ f, f ∈ written_names im0 → q ≠ os_path_join out f) →
            files w' !! q = files w !! q
            ∨ (files w !! q = None ∧ files w' !! q = Some Dir
               ∧ q `suffix_of` out)).
Proof.
  intros Hn Hd Huse Hfit.
  destruct (generate_exports decoder src out d im0 w Hn Hd Huse Hfit)
    as (fs1 & mk & Hrun & Hnew & Hev & _ & _).
  eexists _, mk. split; [exact Hrun |].
  split; [by rewrite new_events_extend |]. split; [done |].
  rewrite files_extend. split.
  - intros f c Hc. by rewrite lookup_all_writes, Hc.
  - intros q Hq. rewrite lookup_all_writes_other by done. apply Hnew.
Qed.

End Summary.

(** ** Runs of any outcome *)

Lemma touched_ok_refl P out fs : touched_ok P out fs fs.
Proof. intros q. by left. Qed.

Lemma touched_ok_trans P out fs1 fs2 fs3 :
  touched_ok P out fs1 fs2 → touched_ok P out fs2 fs3 → touched_ok P out fs1 fs3.
Proof.
  intros H12 H23 q.
  destruct (H23 q)
    as [E23 | [(Hq & N2 & D3 & S) | (f & c & -> & Hf & F3 & ND2 & HP)]].
  - rewrite E23. apply H12.
  - destruct (H12 q)
      as [E12 | [(_ & N1 & D2 & _) | (f & c & _ & _ & F2 & _)]].
    + right. left. by rewrite <- E12.
    + congruence.
    + congruence.
  - right. right. exists f, c. split; [done |]. split; [done |].
    split; [done |]. split; [| done].
    destruct (H12 (os_path_join out f))
      as [E12 | [(_ & N1 & _ & _) | (f' & c' & _ & _ & _ & ND1 & _)]].
    + by rewrite <- E12.
    + by rewrite N1.
    + done.
Qed.

Lemma touched_ok_weaken (P Q : Event → Prop) out fs fs' :
  (∀ e, P e → Q e) → touched_ok P out fs fs' → touched_ok Q out fs fs'.
Proof.
  intros HPQ H q. destruct (H q) as [E | [D | (f & c & ? & ? & ? & ? & HP)]].
  - by left.
  - right. by left.
  - right. right. exists f, c. eauto 10.
Qed.

Lemma touched_ok_file P out fs fs' p c :
  touched_ok P out fs fs' → fs !! p = Some (File c) →
  ∃ c', fs' !! p = Some (File c').
Proof.
  intros H Hp.
  destruct (H p) as [E | [(_ & N & _ & _) | (f & c' & _ & _ & F & _)]].
  - exists c. by rewrite E.
  - congruence.
  - by exists c'.
Qed.

Lemma touched_ok_setup out fs fs' :
  touched_ok setup_event out fs fs' → only_new_dirs fs fs' out.
Proof.
  intros H q. destruct (H q) as [E | [(_ & ? & ? & ?) | (f & c & _ & _ & _ & _ & [])]].
  - by left.
  - by right.
Qed.

Lemma grows_refl P out w : grows P out w w.
Proof.
  split; [apply touched_ok_refl |]. exists [].
  split; [by rewrite app_nil_r |]. split; [constructor |].
  intros p Hp. by apply elem_of_nil in Hp.
Qed.

Lemma grows_trans P out w1 w2 w3 :
  grows P out w1 w2 → grows P out w2 w3 → grows P out w1 w3.
Proof.
  intros [T12 (e1 & E1 & F1 & S1)] [T23 (e2 & E2 & F2 & S2)].
  split; [by eapply touched_ok_trans |]. exists (e1 ++ e2).
  split; [by rewrite E2, E1, app_assoc |].
  split; [by apply Forall_app |].
  intros p Hp. rewrite saved_paths_app in Hp.
  apply elem_of_app in Hp as [Hp | Hp]; [| by apply S2].
  destruct (S1 p Hp) as [c Hc]. by eapply touched_ok_file.
Qed.

Lemma grows_weaken (P Q : Event → Prop) out w w' :
  (∀ e, P e → Q e) → grows P out w w' → grows Q out w w'.
Proof.
  intros HPQ [T (evs & E & F & S)].
  split; [by eapply touched_ok_weaken |]. exists evs.
  split; [done |]. split; [| done]. by eapply Forall_impl.
Qed.

Lemma grows_log (P : Event → Prop) out e w :
  P e → saved_paths [e] = [] → grows P out w (log e w).
Proof.
  intros HP Hs. split; [apply touched_ok_refl |]. exists [e].
  split; [done |]. split; [by apply Forall_singleton |].
  intros p Hp. rewrite Hs in Hp. by apply elem_of_nil in Hp.
Qed.

Lemma keeps_weaken {A} (P Q : Event → Prop) (E F : Exn → Prop) out (m : M A) :
  (∀ e, P e → Q e) → (∀ e, E e → F e) → keeps P E out m → keeps Q F out m.
Proof.
  intros HPQ HEF Hm w. destruct (Hm w) as [Hg He].
  split; [by eapply grows_weaken | eauto].
Qed.

Lemma keeps_ret {A} P E out (a : A) : keeps P E out (ret a).
Proof. intros w. split; [apply grows_refl | done]. Qed.

Lemma keeps_raise {A} P (E : Exn → Prop) out e : E e → keeps P E out (@raise A e).
Proof. intros He w. split; [apply grows_refl |]. by intros ? [= <-]. Qed.

Lemma keeps_bind {A B} P E out (m : M A) (k : A → M B) :
  keeps P E out m → (∀ a, keeps P E out (k a)) → keeps P E out (bind m k).
Proof.
  intros Hm Hk w. unfold bind. destruct (Hm w) as [Hg He].
  destruct (m w) as [[a | e] w1]; simpl in *.
  - destruct (Hk a w1) as [Hg' He']. split; [by eapply grows_trans | done].
  - split; [done | by intros ? [= <-]; apply He].
Qed.

Lemma keeps_try {A} P E E' out (body : M A) (handler : Exn → M A) :
  keeps P E' out body → (∀ e, E' e → keeps P E out (handler e)) →
  keeps P E out (try_except body handler).
Proof.
  intros Hb Hh w. unfold try_except. destruct (Hb w) as [Hg He].
  destruct (body w) as [[a | e] w1]; simpl in *.
  - split; [done | done].
  - destruct (Hh e (He e eq_refl) w1) as [Hg' He'].
    split; [by eapply grows_trans | done].
Qed.

Lemma keeps_for_each {A} P E out (l : list A) (body : A → M unit) :
  (∀ x, x ∈ l → keeps P E out (body x)) → keeps P E out (for_each l body).
Proof.
  induction l as [|x l IH]; intros Hb; [apply keeps_ret |].
  simpl. apply keeps_bind; [apply Hb; left |].
  intros _. apply IH. intros y Hy. apply Hb. by right.
Qed.

Lemma keeps_print (P : Event → Prop) E out m : P (EvPrint m) → keeps P E out (print m).
Proof. intros HP w. split; [by apply grows_log | done]. Qed.

Lemma keeps_exists P E out p : keeps P E out (os_path_exists p).
Proof. intros w. split; [apply grows_refl | done]. Qed.

Lemma keeps_mkdir (P : Event → Prop) out p :
  p `suffix_of` out → P (EvMkdir p) → keeps P os_error out (os_mkdir p).
Proof.
  intros Hs HP w. unfold os_mkdir.
  destruct p as [|c parent]; [split; [apply grows_refl | by intros ? [= <-]] |].
  destruct (files w !! (c :: parent)) eqn:Hp;
    [split; [apply grows_refl | by intros ? [= <-]] |].
  destruct (node (files w) parent) as [[|d]|];
    [| split; [apply grows_refl | by intros ? [= <-]]..].
  split; [| done]. simpl.
  eapply grows_trans; [| by apply grows_log].
  split.
  - intros q. simpl. rewrite lookup_insert. case_decide as Hq.
    + subst q. right. left. done.
    + by left.
  - exists []. simpl. split; [by rewrite app_nil_r |]. split; [constructor |].
    intros p Hp'. by apply elem_of_nil in Hp'.
Qed.

Lemma keeps_makedirs (P : Event → Prop) out p :
  p `suffix_of` out → (∀ q, P (EvMkdir q)) → keeps P os_error out (os_makedirs p).
Proof.
  intros Hs HP. induction p as [|c head IH]; [by apply keeps_mkdir |].
  change (os_makedirs (c :: head)) with
    ((match head with
      | [] => ret tt
      | _ :: _ =>
          head_exists <- os_path_exists head ;;
          if head_exists then ret tt
          else try_except (os_makedirs head)
                 (fun e => match e with
                           | FileExistsError => ret tt
                           | _ => raise e
                           end)
      end) ;;; os_mkdir (c :: head)).
  apply keeps_bind; [| intros _; by apply keeps_mkdir].
  destruct head as [|c' head']; [apply keeps_ret |].
  apply keeps_bind; [apply keeps_exists |].
  intros [|]; [apply keeps_ret |].
  eapply keeps_try.
  - apply IH. by eapply suffix_cons_l.
  - intros e He. destruct e; (apply keeps_ret || by apply keeps_raise).
Qed.

Lemma keeps_save (P : Event → Prop) out im f fmt :
  f ∈ full_file_set → (∀ d, P (EvSave (os_path_join out f) d)) →
  keeps P save_error out (Image_save im (os_path_join out f) fmt).
Proof.
  intros Hf HP w. unfold Image_save, os_path_join.
  destruct (node (files w) out) as [[|d]|];
    [| split; [apply grows_refl | by intros ? [= <-]]..].
  assert (Hto : ∀ c, files w !! (f :: out) ≠ Some Dir →
    touched_ok P out (files w) (<[f :: out := File c]> (files w))).
  { intros c Hnd q. rewrite lookup_insert. case_decide as Hq; [| by left].
    subst q. right. right. exists f, c.
    split; [done |]. split; [done |]. split; [done |]. split; [done | apply HP]. }
  assert (Hok : ∀ data, files w !! (f :: out) ≠ Some Dir →
    grows P out w (log (EvSave (f :: out) data)
                     (store (f :: out) (File data) w))).
  { intros data Hnd. split; [by apply Hto |].
    exists [EvSave (f :: out) data]. simpl.
    split; [done |]. split; [by apply Forall_singleton |].
    intros p Hp. apply list_elem_of_singleton in Hp as ->.
    eexists. apply lookup_insert_eq. }
  assert (Hfail : ∀ w', touched_ok P out (files w) (files w') →
    events w' = events w → grows P out w w').
  { intros w' Ht He. split; [done |]. exists [].
    split; [by rewrite app_nil_r |]. split; [constructor |].
    intros p Hp. by apply elem_of_nil in Hp. }
  destruct (files w !! (f :: out)) as [[|d]|] eqn:Hp.
  - split; [apply grows_refl | by intros ? [= <-]].
  - destruct (encode im fmt) as [data|].
    + split; [apply Hok; congruence | done].
    + split; [| by intros ? [= <-]].
      apply Hfail; [| done]. simpl. apply Hto. congruence.
  - destruct (encode im fmt) as [data|].
    + split; [apply Hok; congruence | done].
    + split; [apply grows_refl | by intros ? [= <-]].
Qed.

Lemma table_names_in_set entry :
  entry ∈ png_files ++ windows_tile_files → entry.1 ∈ full_file_set.
Proof.
  intros Hin. apply list_elem_of_In in Hin. simpl in Hin.
  repeat (destruct Hin as [<- | Hin]; [compute_done |]). done.
Qed.

Lemma export_event_save out f d :
  f ∈ full_file_set → export_event out (EvSave (os_path_join out f) d).
Proof.
  intros Hf. unfold export_event. apply list_elem_of_fmap. by exists f.
Qed.

Lemma keeps_save_resized img out entry :
  entry ∈ png_files ++ windows_tile_files →
  keeps (export_event out) save_error out (save_resized img out entry).
Proof.
  intros Hin. pose proof (table_names_in_set entry Hin) as Hf.
  destruct entry as [filename sz]. unfold save_resized.
  apply keeps_bind.
  - apply keeps_save; [done | intros d; by apply export_event_save].
  - intros _. by apply keeps_print.
Qed.

Lemma keeps_export_icons img out :
  keeps (export_event out) save_error out (export_icons img out).
Proof.
  unfold export_icons.
  apply keeps_bind; [by apply keeps_print | intros _].
  apply keeps_bind.
  { apply keeps_for_each. intros x Hx. apply keeps_save_resized.
    apply elem_of_app. by left. }
  intros _. apply keeps_bind; [by apply keeps_print | intros _].
  apply keeps_bind.
  { apply keeps_for_each. intros x Hx. apply keeps_save_resized.
    apply elem_of_app. by right. }
  intros _. apply keeps_bind; [by apply keeps_print | intros _].
  apply keeps_bind.
  { apply keeps_bind; [| intros _; by apply keeps_print].
    apply keeps_save; [compute_done |]. intros d. apply export_event_save.
    compute_done. }
  intros _. apply keeps_bind; [by apply keeps_print | intros _].
  apply keeps_bind; [| intros _; by apply keeps_print].
  destruct (_ && _); [| by apply keeps_print].
  apply keeps_bind; [| intros _; by apply keeps_print].
  apply keeps_save; [compute_done |]. intros d. apply export_event_save.
  compute_done.
Qed.

Lemma keeps_make_output_dir out :
  keeps setup_event os_error out (make_output_dir out).
Proof.
  unfold make_output_dir. apply keeps_bind; [apply keeps_exists |].
  intros [|]; simpl; [apply keeps_ret |].
  apply keeps_bind; [by apply keeps_makedirs | intros _; by apply keeps_print].
Qed.

Section AnyOutcome.

Variable decoder : FileData → option Image.

(** The [try] block never raises: it yields the converted image, or
    nothing after the failure message. *)
Lemma open_source_cases src w :
  (∃ im0, decodes_to decoder (files w) src im0
          ∧ open_source decoder src w
            = (Val (Some (convert im0 ModeRGBA)),
               extend w (files w)
                 [EvOpen src; EvPrint (MsgLoaded src (size im0))]))
  ∨ ((∀ im0, ¬ decodes_to decoder (files w) src im0)
     ∧ ∃ e, open_source decoder src w
            = (Val None,
               extend w (files w) [EvOpen src; EvPrint (MsgCannotOpen e)])).
Proof.
  unfold decodes_to.
  destruct (node (files w) src) as [[|d]|] eqn:Hn.
  - right. split; [by intros im0 (d & [=] & _) |].
    by apply (open_source_fails decoder src Dir).
  - destruct (decoder d) as [im0|] eqn:Hd.
    + left. exists im0. split; [by exists d |].
      by apply (open_source_ok decoder src d).
    + right. split; [intros im0 (d' & [= <-] & Hd'); congruence |].
      by apply (open_source_fails decoder src (File d)).
  - right. split; [by intros im0 (d & [=] & _) |].
    exists FileNotFoundError.
    unfold open_source, try_except, bind, Image_open. rewrite Hn.
    unfold print, ret, log, extend. simpl. by rewrite <- app_assoc.
Qed.

(** The four ways through the routine, for any world. *)
Lemma generate_cases src out w :
  (node (files w) src = None
   ∧ generate_tauri_icons decoder src out w
     = (Val tt, extend w (files w) [EvPrint (MsgMissingSource src)]))
  ∨ (is_Some (node (files w) src)
     ∧ ∃ e w1, make_output_dir out w = (Raise e, w1)
               ∧ generate_tauri_icons decoder src out w = (Raise e, w1))
  ∨ (is_Some (node (files w) src)
     ∧ ∃ w1 e, make_output_dir out w = (Val tt, w1)
               ∧ (∀ im0, ¬ decodes_to decoder (files w1) src im0)
               ∧ generate_tauri_icons decoder src out w
                 = (Val tt, extend w1 (files w1)
                              [EvOpen src; EvPrint (MsgCannotOpen e)]))
  ∨ (is_Some (node (files w) src)
     ∧ ∃ w1 im0, make_output_dir out w = (Val tt, w1)
               ∧ decodes_to decoder (files w1) src im0
               ∧ generate_tauri_icons decoder src out w
                 = export_icons (convert im0 ModeRGBA) out
                     (extend w1 (files w1)
                        [EvOpen src; EvPrint (MsgLoaded src (size im0))])).
Proof.
  destruct (node (files w) src) as [n|] eqn:Hn.
  2:{ left. split; [done |]. by apply generate_missing. }
  right.
  assert (Hgen : generate_tauri_icons decoder src out w
    = (make_output_dir out ;;;
       loaded <- open_source decoder src ;;
       match loaded with
       | None => ret tt
       | Some img => export_icons img out
       end) w).
  { unfold generate_tauri_icons. unfold bind at 1. unfold os_path_exists at 1.
    rewrite Hn, bool_decide_eq_true_2 by eauto. reflexivity. }
  rewrite Hgen.
  destruct (make_output_dir out w) as [[[]|e] w1] eqn:Hmk.
  - right.
    destruct (open_source_cases src w1) as [(im0 & Hdec & Hop) | (Hno & e & Hop)].
    + right. split; [eauto |]. exists w1, im0.
      split; [done |]. split; [done |].
      by rewrite (bind_Val _ _ _ _ _ Hmk), (bind_Val _ _ _ _ _ Hop).
    + left. split; [eauto |]. exists w1, e. split; [done |]. split; [done |].
      by rewrite (bind_Val _ _ _ _ _ Hmk), (bind_Val _ _ _ _ _ Hop).
  - left. split; [eauto |]. exists e, w1. split; [done |].
    unfold bind at 1. by rewrite Hmk.
Qed.

(** Step 2 leaves what exists alone, so the source reads the same after
    it. *)
Lemma decodes_to_after_setup src out w w1 im0 :
  is_Some (node (files w) src) → grows setup_event out w w1 →
  decodes_to decoder (files w1) src im0 ↔ decodes_to decoder (files w) src im0.
Proof.
  intros [n Hn] [Ht _]. apply touched_ok_setup in Ht.
  assert (Heq : node (files w1) src = node (files w) src).
  { destruct src as [|c s]; [done |]. rewrite !node_cons in *.
    destruct (Ht (c :: s)) as [-> | (Hnone & _)]; congruence. }
  unfold decodes_to. by rewrite Heq.
Qed.

End AnyOutcome.

(** ** What is saved, in which order, and the closing message *)

Lemma saves_ret {A} out (a : A) : saves_spec out false [] (ret a).
Proof.
  intros w. exists []. split; [by rewrite app_nil_r |]. simpl.
  split; [done | constructor].
Qed.

Lemma saves_print out m : not_done (EvPrint m) → saves_spec out false [] (print m).
Proof.
  intros Hm w. exists [EvPrint m]. split; [done |]. simpl.
  split; [done | by apply Forall_singleton].
Qed.

Lemma saves_print_done out : saves_spec out true [] (print (MsgDone out)).
Proof.
  intros w. exists [EvPrint (MsgDone out)]. split; [done |]. simpl.
  split; [done | left].
Qed.

Lemma saves_save out im p fmt : saves_spec out false [p] (Image_save im p fmt).
Proof.
  intros w.
  assert (Hraise : ∃ evs,
    events w = events w ++ evs
    ∧ Forall not_done evs
    ∧ ∃ rest, rest ≠ [] ∧ [p] = saved_paths evs ++ rest).
  { exists []. split; [by rewrite app_nil_r |].
    split; [constructor |]. by exists [p]. }
  unfold Image_save. destruct p as [|c parent]; [exact Hraise |].
  destruct (node (files w) parent) as [[|d]|]; [| exact Hraise..].
  destruct (files w !! (c :: parent)) as [[|d]|]; [exact Hraise | |];
    (destruct (encode im fmt) as [data|]; [| exact Hraise];
     eexists [EvSave _ _]; split; [done |]; simpl;
     split; [done | by apply Forall_singleton]).
Qed.

Lemma saves_bind {A B} out fin L1 L2 (m : M A) (k : A → M B) :
  saves_spec out false L1 m → (∀ a, saves_spec out fin L2 (k a)) →
  saves_spec out fin (L1 ++ L2) (bind m k).
Proof.
  intros Hm Hk w. unfold bind. destruct (Hm w) as (e1 & E1 & H1).
  destruct (m w) as [[a | e] w1]; simpl in *.
  - destruct H1 as [S1 N1]. destruct (Hk a w1) as (e2 & E2 & H2).
    exists (e1 ++ e2). split; [by rewrite E2, E1, app_assoc |].
    rewrite saved_paths_app, S1.
    destruct ((k a w1).1) as [b | e].
    + destruct H2 as [S2 D2]. split; [by rewrite S2 |].
      destruct fin; [apply elem_of_app; by right | by apply Forall_app].
    + destruct H2 as [N2 (rest & Hr & ->)].
      split; [by apply Forall_app |]. exists rest. split; [done |].
      by rewrite app_assoc.
  - destruct H1 as [N1 (rest & Hr & ->)]. exists e1. split; [done |].
    split; [done |]. exists (rest ++ L2). split; [by destruct rest |].
    by rewrite app_assoc.
Qed.

Lemma saves_for_each {A} out (g : A → path) (l : list A) (body : A → M unit) :
  (∀ x, saves_spec out false [g x] (body x)) →
  saves_spec out false (map g l) (for_each l body).
Proof.
  intros Hb. induction l as [|x l IH]; [apply saves_ret |].
  simpl. apply (saves_bind out false [g x] (map g l)); [apply Hb | by intros _].
Qed.

Lemma saves_save_resized img out entry :
  saves_spec out false [os_path_join out entry.1] (save_resized img out entry).
Proof.
  destruct entry as [filename sz]. unfold save_resized.
  apply (saves_bind out false [_] []); [apply saves_save |].
  intros _. by apply saves_print.
Qed.

Lemma saves_export_icons img out :
  saves_spec out true (map (os_path_join out) (written_names img))
    (export_icons img out).
Proof.
  set (g := λ entry : string * Z, os_path_join out entry.1).
  assert (HL : map (os_path_join out) (written_names img)
    = map g png_files
      ++ (map g windows_tile_files
          ++ ([os_path_join out "icon.ico"]
              ++ ((if large_enough img then [os_path_join out "icon.icns"] else [])
                  ++ [])))).
  { unfold written_names. destruct (large_enough img); reflexivity. }
  rewrite HL. clear HL. unfold export_icons. fold (large_enough img).
  apply (saves_bind out true [] _); [by apply saves_print | intros _].
  apply (saves_bind out true (map g png_files) _);
    [apply (saves_for_each out g), saves_save_resized | intros _].
  apply (saves_bind out true [] _); [by apply saves_print | intros _].
  apply (saves_bind out true (map g windows_tile_files) _);
    [apply (saves_for_each out g), saves_save_resized | intros _].
  apply (saves_bind out true [] _); [by apply saves_print | intros _].
  apply (saves_bind out true [os_path_join out "icon.ico"] _).
  { apply (saves_bind out false [_] []); [apply saves_save |].
    intros _. by apply saves_print. }
  intros _.
  apply (saves_bind out true [] _); [by apply saves_print | intros _].
  apply (saves_bind out true _ []); [| intros _; apply saves_print_done].
  destruct (large_enough img); [| by apply saves_print].
  apply (saves_bind out false [_] []); [apply saves_save |].
  intros _. by apply saves_print.
Qed.

(** ** The whole routine, whatever the outcome *)

Lemma bind_Raise {A B} (m : M A) (k : A → M B) w e w' :
  m w = (Raise e, w') → bind m k w = (Raise e, w').
Proof. intros H. unfold bind. by rewrite H. Qed.

Lemma grows_extend (P : Event → Prop) out w evs :
  Forall P evs → saved_paths evs = [] → grows P out w (extend w (files w) evs).
Proof.
  intros HP Hs. split; [apply touched_ok_refl |]. exists evs.
  split; [done |]. split; [done |].
  intros p Hp. rewrite Hs in Hp. by apply elem_of_nil in Hp.
Qed.

Lemma os_error_run_error e : os_error e → run_error e.
Proof. by destruct e. Qed.

Lemma save_error_run_error e : save_error e → run_error e.
Proof. by destruct e. Qed.

Lemma setup_is_run_event out e : setup_event e → run_event out e.
Proof. by destruct e as [| | |[]]. Qed.

Lemma export_is_run_event out e : export_event out e → run_event out e.
Proof. by destruct e. Qed.

Lemma export_opened out evs : Forall (export_event out) evs → opened_paths evs = [].
Proof.
  induction 1 as [|e evs He _ IH]; [done |].
  destruct e; simpl in He; try done; exact IH.
Qed.

Lemma run_event_saved out evs p :
  Forall (run_event out) evs → p ∈ saved_paths evs →
  p ∈ map (os_path_join out) full_file_set.
Proof.
  induction 1 as [|e evs He _ IH]; [intros H; by apply elem_of_nil in H |].
  destruct e as [| |p' d|]; try exact IH.
  intros H. change (p ∈ p' :: saved_paths evs) in H.
  apply elem_of_cons in H as [-> | H]; [exact He | by apply IH].
Qed.

Lemma setup_not_done evs out :
  Forall setup_event evs → EvPrint (MsgDone out) ∉ evs.
Proof.
  intros H Hin. rewrite Forall_forall in H. by apply H in Hin.
Qed.

Lemma not_done_not_in evs out :
  Forall not_done evs → EvPrint (MsgDone out) ∉ evs.
Proof.
  intros H Hin. rewrite Forall_forall in H. by apply H in Hin.
Qed.

Lemma grows_new_events P out w w' :
  grows P out w w' →
  events w' = events w ++ new_events w w' ∧ Forall P (new_events w w')
  ∧ ∀ p, p ∈ saved_paths (new_events w w') → ∃ c, files w' !! p = Some (File c).
Proof.
  intros [_ (evs & E & F & S)]. unfold new_events.
  by rewrite E, drop_app_length.
Qed.

(** ** Where the saved files come from *)

Lemma emits_ret {A} P (a : A) : emits P (ret a).
Proof. intros w. exists []. split; [by rewrite app_nil_r | constructor]. Qed.

Lemma emits_print (P : Event → Prop) m : P (EvPrint m) → emits P (print m).
Proof. intros HP w. exists [EvPrint m]. split; [done | by apply Forall_singleton]. Qed.

Lemma emits_bind {A B} P (m : M A) (k : A → M B) :
  emits P m → (∀ a, emits P (k a)) → emits P (bind m k).
Proof.
  intros Hm Hk w. unfold bind. destruct (Hm w) as (e1 & E1 & F1).
  destruct (m w) as [[a | e] w1]; simpl in *; [| by exists e1].
  destruct (Hk a w1) as (e2 & E2 & F2). exists (e1 ++ e2).
  split; [by rewrite E2, E1, app_assoc | by apply Forall_app].
Qed.

Lemma emits_for_each {A} P (l : list A) (body : A → M unit) :
  (∀ x, emits P (body x)) → emits P (for_each l body).
Proof.
  intros Hb. induction l as [|x l IH]; [apply emits_ret |].
  simpl. apply emits_bind; [apply Hb | by intros _].
Qed.

Lemma emits_save (P : Event → Prop) im p fmt :
  (∀ data, encode im fmt = Some data → P (EvSave p data)) →
  emits P (Image_save im p fmt).
Proof.
  intros HP w.
  assert (Hnone : ∃ evs : list Event, events w = events w ++ evs ∧ Forall P evs).
  { exists []. split; [by rewrite app_nil_r | constructor]. }
  unfold Image_save. destruct p as [|c parent]; [exact Hnone |].
  destruct (node (files w) parent) as [[|d]|]; [| exact Hnone..].
  destruct (files w !! (c :: parent)) as [[|d]|]; [exact Hnone | |];
    (destruct (encode im fmt) as [data|] eqn:He;
     [| destruct Hnone as (evs & ? & ?); by exists evs];
     exists [EvSave (c :: parent) data];
     split; [done | by apply Forall_singleton, HP]).
Qed.

Lemma ico_sources img sizes :
  Forall (λ x, x = img) (sources (IcoFile (ico_entries img sizes))).
Proof.
  unfold ico_entries. simpl. induction (List.filter _ sizes) as [|s l IH];
    [constructor |]. by constructor.
Qed.

Lemma encode_from_image img im fmt p data :
  mode img = ModeRGBA → (im = img ∨ ∃ sz f, im = resize img sz f) →
  encode im fmt = Some data →
  (∀ sizes, fmt = ICO sizes → im = img) →
  from_image img (EvSave p data).
Proof.
  intros Hm Him He Hico. simpl.
  assert (Hone : (im = img ∨ ∃ sz f, im = resize img sz f) ∧ mode im = ModeRGBA).
  { split; [done |]. destruct Him as [-> | (sz & f & ->)]; done. }
  destruct fmt as [|sizes|]; simpl in He.
  - injection He as <-. simpl. split; [done | by constructor].
  - rewrite (Hico sizes eq_refl) in *.
    destruct (ico_entries img sizes) as [|e l] eqn:El; [done |].
    injection He as <-. rewrite <- El. split.
    + rewrite El. by destruct e.
    + eapply Forall_impl; [apply ico_sources |]. intros x ->. by split; [left |].
  - injection He as <-. simpl. split; [done | by constructor].
Qed.

Lemma emits_export_icons img out :
  mode img = ModeRGBA → emits (from_image img) (export_icons img out).
Proof.
  intros Hm. unfold export_icons.
  apply emits_bind; [by apply emits_print | intros _].
  apply emits_bind.
  { apply emits_for_each. intros [filename sz]. unfold save_resized.
    apply emits_bind; [| intros _; by apply emits_print].
    apply emits_save. intros data He.
    eapply encode_from_image; [done | right; eauto | exact He | done]. }
  intros _. apply emits_bind; [by apply emits_print | intros _].
  apply emits_bind.
  { apply emits_for_each. intros [filename sz]. unfold save_resized.
    apply emits_bind; [| intros _; by apply emits_print].
    apply emits_save. intros data He.
    eapply encode_from_image; [done | right; eauto | exact He | done]. }
  intros _. apply emits_bind; [by apply emits_print | intros _].
  apply emits_bind.
  { apply emits_bind; [| intros _; by apply emits_print].
    apply emits_save. intros data He.
    eapply encode_from_image; [done | by left | exact He | done]. }
  intros _. apply emits_bind; [by apply emits_print | intros _].
  apply emits_bind; [| intros _; by apply emits_print].
  destruct (_ && _); [| by apply emits_print].
  apply emits_bind; [| intros _; by apply emits_print].
  apply emits_save. intros data He.
  eapply encode_from_image; [done | by left | exact He | done].
Qed.

Section WholeRun.

Variable decoder : FileData → option Image.

Lemma generate_keeps src out :
  keeps (run_event out) run_error out (generate_tauri_icons decoder src out).
Proof.
  intros w.
  destruct (generate_cases decoder src out w)
    as [[_ ->] | [(_ & e & w1 & Hmk & ->) | [(_ & w1 & e & Hmk & _ & ->)
       | (_ & w1 & im0 & Hmk & _ & ->)]]].
  - split; [| done]. by apply grows_extend; [repeat constructor |].
  - destruct (keeps_make_output_dir out w) as [Hg He]. rewrite Hmk in *.
    split; [| by intros ? [= <-]; apply os_error_run_error, He].
    eapply grows_weaken; [apply setup_is_run_event | exact Hg].
  - destruct (keeps_make_output_dir out w) as [Hg _]. rewrite Hmk in *.
    simpl in Hg. split; [| done]. apply (grows_trans _ _ w w1).
    + eapply grows_weaken; [apply setup_is_run_event | exact Hg].
    + by apply grows_extend; [repeat constructor |].
  - destruct (keeps_make_output_dir out w) as [Hg _]. rewrite Hmk in *.
    simpl in Hg. set (w2 := extend w1 _ _).
    destruct (keeps_export_icons (convert im0 ModeRGBA) out w2) as [Hx He].
    split; [| intros e Hr; by apply save_error_run_error, He].
    apply (grows_trans _ _ w w1).
    + eapply grows_weaken; [apply setup_is_run_event | exact Hg].
    + apply (grows_trans _ _ w1 w2).
      * by apply grows_extend; [repeat constructor |].
      * eapply grows_weaken; [apply export_is_run_event | exact Hx].
Qed.

(** The events of a run, by the way it went. *)
Lemma generate_events src out w :
  let r := generate_tauri_icons decoder src out w in
  new_events w r.2 = [EvPrint (MsgMissingSource src)] ∧ r.1 = Val tt
  ∨ (∃ e, r.1 = Raise e ∧ Forall setup_event (new_events w r.2))
  ∨ (∃ mk e, r.1 = Val tt ∧ Forall setup_event mk
             ∧ new_events w r.2 = mk ++ [EvOpen src; EvPrint (MsgCannotOpen e)])
  ∨ (∃ mk im0 ex, Forall setup_event mk
       ∧ decodes_to decoder (files w) src im0
       ∧ Forall (export_event out) ex
       ∧ new_events w r.2
         = mk ++ [EvOpen src; EvPrint (MsgLoaded src (size im0))] ++ ex
       ∧ match r.1 with
         | Val _ => saved_paths ex = map (os_path_join out) (written_names im0)
                    ∧ EvPrint (MsgDone out) ∈ ex
         | Raise _ => Forall not_done ex
                      ∧ ∃ rest, rest ≠ []
                          ∧ map (os_path_join out) (written_names im0)
                            = saved_paths ex ++ rest
         end).
Proof.
  intros r. subst r.
  destruct (generate_cases decoder src out w)
    as [[_ ->] | [(_ & e & w1 & Hmk & ->) | [(_ & w1 & e & Hmk & _ & ->)
       | (Hex & w1 & im0 & Hmk & Hdec & ->)]]].
  - left. cbn [fst snd]. by rewrite new_events_extend.
  - right. left. cbn [fst snd]. exists e. split; [done |].
    destruct (keeps_make_output_dir out w) as [Hg _]. rewrite Hmk in Hg.
    simpl in Hg. by apply grows_new_events in Hg as (_ & ? & _).
  - right. right. left. cbn [fst snd].
    destruct (keeps_make_output_dir out w) as [Hg _]. rewrite Hmk in Hg.
    simpl in Hg. apply grows_new_events in Hg as (E & F & _).
    set (mk := new_events w w1) in *.
    exists mk, e. split; [done |]. split; [done |].
    unfold new_events, extend. simpl. rewrite E.
    by rewrite <- app_assoc, drop_app_length.
  - right. right. right.
    destruct (keeps_make_output_dir out w) as [Hg _]. rewrite Hmk in Hg.
    simpl in Hg.
    pose proof (proj1 (decodes_to_after_setup decoder src out w w1 im0 Hex Hg) Hdec)
      as Hdec0.
    apply grows_new_events in Hg as (E & F & _).
    set (mk := new_events w w1) in *.
    set (w2 := extend w1 _ _).
    destruct (keeps_export_icons (convert im0 ModeRGBA) out w2) as [Hx _].
    apply grows_new_events in Hx as (E2 & F2 & _).
    destruct (saves_export_icons (convert im0 ModeRGBA) out w2) as (ex & E3 & Hspec).
    assert (Hex2 : new_events w2 (export_icons (convert im0 ModeRGBA) out w2).2 = ex).
    { unfold new_events. by rewrite E3, drop_app_length. }
    rewrite Hex2 in *.
    exists mk, im0, ex.
    split; [done |]. split; [done |]. split; [done |]. split; [| exact Hspec].
    unfold new_events. rewrite E3. unfold w2, extend. simpl.
    rewrite E. by rewrite <- !app_assoc, drop_app_length.
Qed.

(** The same, with what each way does to the files and where its
    exception comes from. *)
Lemma generate_outcomes src out w :
  let r := generate_tauri_icons decoder src out w in
  (node (files w) src = None
   ∧ r = (Val tt, extend w (files w) [EvPrint (MsgMissingSource src)]))
  ∨ (∃ e, r.1 = Raise e ∧ os_error e
          ∧ (make_output_dir out w).1 = Raise e
          ∧ Forall setup_event (new_events w r.2)
          ∧ only_new_dirs (files w) (files r.2) out)
  ∨ (∃ mk e, r.1 = Val tt
          ∧ (make_output_dir out w).1 = Val tt
          ∧ (∀ im0, ¬ decodes_to decoder (files w) src im0)
          ∧ Forall setup_event mk
          ∧ new_events w r.2 = mk ++ [EvOpen src; EvPrint (MsgCannotOpen e)]
          ∧ only_new_dirs (files w) (files r.2) out)
  ∨ (∃ mk im0 ex,
          (make_output_dir out w).1 = Val tt
          ∧ Forall setup_event mk
          ∧ decodes_to decoder (files w) src im0
          ∧ Forall (export_event out) ex
          ∧ Forall (from_image (convert im0 ModeRGBA)) ex
          ∧ new_events w r.2
            = mk ++ [EvOpen src; EvPrint (MsgLoaded src (size im0))] ++ ex
          ∧ match r.1 with
            | Val _ => saved_paths ex = map (os_path_join out) (written_names im0)
            | Raise e => save_error e
                         ∧ ∃ rest, rest ≠ []
                             ∧ map (os_path_join out) (written_names im0)
                               = saved_paths ex ++ rest
            end).
Proof.
  intros r. subst r.
  destruct (generate_cases decoder src out w)
    as [[Hn ->] | [(_ & e & w1 & Hmk & ->) | [(Hex & w1 & e & Hmk & Hno & ->)
       | (Hex & w1 & im0 & Hmk & Hdec & ->)]]].
  - by left.
  - right. left. cbn [fst snd]. exists e. split; [done |].
    destruct (keeps_make_output_dir out w) as [Hg He]. rewrite Hmk in Hg, He.
    split; [by apply He |]. split; [by rewrite Hmk |]. simpl in Hg.
    split; [by apply grows_new_events in Hg as (_ & ? & _) |].
    by apply touched_ok_setup, Hg.
  - right. right. left. cbn [fst snd].
    destruct (keeps_make_output_dir out w) as [Hg _]. rewrite Hmk in Hg.
    simpl in Hg.
    assert (Hno0 : ∀ im0, ¬ decodes_to decoder (files w) src im0).
    { intros im0 H. apply (Hno im0).
      by apply (decodes_to_after_setup decoder src out w w1 im0 Hex Hg). }
    pose proof (touched_ok_setup _ _ _ (proj1 Hg)) as Hnew.
    apply grows_new_events in Hg as (E & F & _).
    set (mk := new_events w w1) in *.
    exists mk, e. split; [done |]. split; [by rewrite Hmk |].
    split; [done |]. split; [done |]. split; [| by rewrite files_extend].
    unfold new_events, extend. simpl. rewrite E.
    by rewrite <- app_assoc, drop_app_length.
  - right. right. right.
    destruct (keeps_make_output_dir out w) as [Hg _]. rewrite Hmk in Hg.
    simpl in Hg.
    pose proof (proj1 (decodes_to_after_setup decoder src out w w1 im0 Hex Hg) Hdec)
      as Hdec0.
    apply grows_new_events in Hg as (E & F & _).
    set (mk := new_events w w1) in *.
    set (w2 := extend w1 _ _).
    destruct (keeps_export_icons (convert im0 ModeRGBA) out w2) as [Hx Herr].
    apply grows_new_events in Hx as (E2 & F2 & _).
    destruct (saves_export_icons (convert im0 ModeRGBA) out w2) as (ex & E3 & Hspec).
    destruct (emits_export_icons (convert im0 ModeRGBA) out eq_refl w2)
      as (ex' & E4 & F4).
    assert (ex' = ex) as ->.
    { rewrite E3 in E4. by apply app_inv_head in E4. }
    assert (Hex2 : new_events w2 (export_icons (convert im0 ModeRGBA) out w2).2 = ex).
    { unfold new_events. by rewrite E3, drop_app_length. }
    rewrite Hex2 in *.
    exists mk, im0, ex.
    split; [by rewrite Hmk |]. split; [done |]. split; [done |].
    split; [done |]. split; [done |]. split.
    + unfold new_events. rewrite E3. unfold w2, extend. simpl.
      rewrite E. by rewrite <- !app_assoc, drop_app_length.
    + destruct ((export_icons (convert im0 ModeRGBA) out w2).1) as [a|e] eqn:Hr.
      * by destruct Hspec.
      * destruct Hspec as [_ Hrest]. split; [by apply Herr | done].
Qed.

End WholeRun.

(** ** The containers leave the PNGs alone *)

Lemma changes_only_ret {A} S (a : A) : changes_only S (ret a).
Proof. intros w. split; [done |]. exists []. by rewrite app_nil_r. Qed.

Lemma changes_only_print S m : changes_only S (print m).
Proof. intros w. split; [done |]. by exists [EvPrint m]. Qed.

Lemma changes_only_bind {A B} S (m : M A) (k : A → M B) :
  changes_only S m → (∀ a, changes_only S (k a)) → changes_only S (bind m k).
Proof.
  intros Hm Hk w. unfold bind. destruct (Hm w) as [F1 (e1 & E1)].
  destruct (m w) as [[a | e] w1]; simpl in *; [| split; [done | by exists e1]].
  destruct (Hk a w1) as [F2 (e2 & E2)]. split.
  - intros q Hq. by rewrite F2, F1.
  - exists (e1 ++ e2). by rewrite E2, E1, app_assoc.
Qed.

Lemma changes_only_save S im p fmt :
  p ∈ S → changes_only S (Image_save im p fmt).
Proof.
  intros Hp w.
  assert (Hnone : (∀ q, q ∉ S → files w !! q = files w !! q)
                  ∧ ∃ evs : list Event, events w = events w ++ evs).
  { split; [done |]. exists []. by rewrite app_nil_r. }
  assert (Hstore : ∀ n q, q ∉ S → <[p := n]> (files w) !! q = files w !! q).
  { intros n q Hq. apply lookup_insert_ne. by intros ->. }
  unfold Image_save. destruct p as [|c parent]; [exact Hnone |].
  destruct (node (files w) parent) as [[|d]|]; [| exact Hnone..].
  destruct (files w !! (c :: parent)) as [[|d]|]; [exact Hnone | |];
    destruct (encode im fmt) as [data|]; simpl;
    ((split; [by apply Hstore | by eexists [_]])
     || (split; [by apply Hstore | exists []; by rewrite app_nil_r])
     || exact Hnone).
Qed.

Lemma changes_only_export_containers img out :
  changes_only [os_path_join out "icon.ico"; os_path_join out "icon.icns"]
    (export_containers img out).
Proof.
  unfold export_containers.
  apply changes_only_bind; [apply changes_only_print | intros _].
  apply changes_only_bind.
  { apply changes_only_bind; [| intros _; apply changes_only_print].
    apply changes_only_save. left. }
  intros _. apply changes_only_bind; [apply changes_only_print | intros _].
  apply changes_only_bind; [| intros _; apply changes_only_print].
  destruct (_ && _); [| apply changes_only_print].
  apply changes_only_bind; [| intros _; apply changes_only_print].
  apply changes_only_save. right. left.
Qed.

(** The export, once both loops are through. *)
Lemma export_icons_after_loops img out names w :
  ready (files w) out names → png_names ⊆ names →
  export_icons img out w
  = export_containers img out
      (extend w
         (write_all (files w)
            (map (at_dir out)
               (map (png_write img) (png_files ++ windows_tile_files))))
         ([EvPrint MsgPngHeader] ++ png_events img out png_files
          ++ [EvPrint MsgTileHeader] ++ png_events img out windows_tile_files)).
Proof.
  intros Hr Hsub. unfold export_icons.
  rewrite (bind_Val _ _ _ _ _ (print_run _ _)).
  erewrite bind_Val.
  2:{ eapply for_each_save_run; [exact Hr |]. intros f Hf. apply Hsub.
      unfold png_names. rewrite fmap_app. apply elem_of_app. by left. }
  rewrite extend_extend.
  rewrite (bind_Val _ _ _ _ _ (print_run _ _)), extend_extend.
  erewrite bind_Val.
  2:{ eapply for_each_save_run.
      - rewrite !files_extend. apply ready_write_all. exact Hr.
      - intros f Hf. apply Hsub.
        unfold png_names. rewrite fmap_app. apply elem_of_app. by right. }
  rewrite extend_extend, !files_extend, <- write_all_app, <- !map_app.
  rewrite <- !app_assoc. reflexivity.
Qed.

Lemma last_named_png_only img entry :
  entry ∈ png_files ++ windows_tile_files →
  last_named entry.1 (map (png_write img) (png_files ++ windows_tile_files))
  = Some (PngFile (resize img (entry.2, entry.2) LANCZOS)).
Proof.
  intros Hin. apply list_elem_of_In in Hin. simpl in Hin.
  repeat (destruct Hin as [<- | Hin]; [reflexivity |]). done.
Qed.

Section Raising.

Variable decoder : FileData → option Image.

(** A run whose source decodes, up to the point where the export starts. *)
Lemma generate_reaches_export src out d im0 names w :
  node (files w) src = Some (File d) → decoder d = Some im0 →
  output_dir_usable (files w) out names = true →
  ∃ fs1 mk,
    generate_tauri_icons decoder src out w
    = export_icons (convert im0 ModeRGBA) out
        (extend w fs1 (mk ++ [EvOpen src; EvPrint (MsgLoaded src (size im0))]))
    ∧ only_new_dirs (files w) fs1 out
    ∧ Forall setup_event mk
    ∧ ready fs1 out names.
Proof.
  intros Hn Hd Huse. unfold output_dir_usable in Huse.
  apply andb_prop in Huse as [Hav Hfree].
  assert (Hpass : dir_step_passes (files w) out = true).
  { unfold dir_step_passes. rewrite Hav. apply orb_true_r. }
  destruct (make_output_dir_run out w Hpass)
    as (fs1 & mk & Hmk & Hnew & Hev & _ & Hdir).
  assert (Hn1 : node fs1 src = Some (File d)).
  { destruct src as [|c s]; [done |]. rewrite node_cons in *.
    destruct (Hnew (c :: s)) as [-> | (Hnone & _)]; congruence. }
  assert (Hready : ready fs1 out names).
  { split; [by apply Hdir |]. intros f Hf.
    rewrite forallb_forall in Hfree.
    specialize (Hfree f (proj1 (list_elem_of_In _ _) Hf)).
    destruct (Hnew (os_path_join out f)) as [-> | (_ & _ & Hs)].
    - intros E. rewrite E in Hfree. done.
    - by apply not_suffix_cons in Hs. }
  exists fs1, mk. split; [| done].
  unfold generate_tauri_icons. unfold bind at 1. unfold os_path_exists at 1.
  rewrite Hn, bool_decide_eq_true_2 by eauto. cbn [negb].
  rewrite (bind_Val _ _ _ _ _ Hmk).
  erewrite bind_Val by (by eapply open_source_ok).
  by rewrite extend_extend.
Qed.

End Raising.
(** ** The claims *)

(** The claims on successful runs are stated for an output directory that
    [output_dir_usable] accepts.  Without it the exceptions of [save] and
    [os.makedirs] leave the routine: here the output path is a regular
    file, step 2 is skipped because something exists there, and the first
    [save] raises after the image has been loaded. *)
Example run_raises_when_output_is_a_file :
  blocked_run.1 = Raise NotADirectoryError
  ∧ opened_paths (events blocked_run.2) = [["dog.png"]]
  ∧ saved_paths (events blocked_run.2) = [].
Proof. by vm_compute. Qed.

Lemma png_events_elem img out table entry :
  entry ∈ table →
  EvSave (os_path_join out entry.1) (PngFile (resize img (entry.2, entry.2) LANCZOS))
  ∈ png_events img out table.
Proof.
  intros Hin. unfold png_events. apply list_elem_of_In, in_flat_map.
  exists entry. split; [by apply list_elem_of_In | by left].
Qed.

Lemma last_named_png img entry :
  entry ∈ png_files ++ windows_tile_files →
  last_named entry.1 (named_writes img)
  = Some (PngFile (resize img (entry.2, entry.2) LANCZOS)).
Proof.
  intros Hin. apply list_elem_of_In in Hin. simpl in Hin.
  unfold named_writes.
  repeat (destruct Hin as [<- | Hin];
          [destruct (large_enough img); reflexivity |]).
  done.
Qed.

Lemma last_named_ico img :
  last_named "icon.ico" (named_writes img)
  = Some (IcoFile (ico_entries img ico_sizes)).
Proof. unfold named_writes. destruct (large_enough img); reflexivity. Qed.

Lemma last_named_icns img :
  large_enough img = true →
  last_named "icon.icns" (named_writes img) = Some (IcnsFile img).
Proof. intros H. unfold named_writes. rewrite H. reflexivity. Qed.

Lemma png_name_in_table f :
  f ∈ take 14 full_file_set →
  ∃ sz, (f, sz) ∈ png_files ++ windows_tile_files.
Proof.
  intros Hf. change (f ∈ (png_files ++ windows_tile_files).*1) in Hf.
  apply list_elem_of_fmap in Hf as ([g sz] & -> & Hin). by exists sz.
Qed.

Lemma table_name_not_container entry :
  entry ∈ png_files ++ windows_tile_files →
  entry.1 ≠ "icon.ico" ∧ entry.1 ≠ "icon.icns".
Proof.
  intros Hin. apply list_elem_of_In in Hin. simpl in Hin.
  repeat (destruct Hin as [<- | Hin]; [done |]). done.
Qed.

(** A source of at least 256 by 256 keeps all six requested sizes. *)
Lemma ico_entries_all img :
  (256 ≤ fst (size img))%Z → (256 ≤ snd (size img))%Z →
  ico_entries img ico_sizes = map (λ s, Thumbnail s LANCZOS img) ico_sizes.
Proof.
  intros Hw Hh. unfold ico_entries. f_equal.
  assert (Hall : ∀ s, In s ico_sizes → ico_keeps (size img) s = true).
  { intros s Hs. apply ico_keeps_spec. simpl in Hs.
    repeat (destruct Hs as [<- | Hs]; [simpl; lia |]). done. }
  revert Hall. generalize ico_sizes. intros l.
  induction l as [|s l IH]; intros Hall; [done |].
  simpl. rewrite Hall by (by left). f_equal. apply IH.
  intros s' Hs'. apply Hall. by right.
Qed.

Lemma large_enough_ico_fits im : large_enough im = true → ico_fits im = true.
Proof.
  unfold large_enough. rewrite andb_true_iff, !Z.leb_le, ico_fits_spec. lia.
Qed.

(** C1. For every source image that exists, decodes and is at least 512
    by 512, the run writes exactly the sixteen enumerated files into the
    output directory, in that order: the fourteen PNGs, each holding the
    RGBA source resized to the square of its table entry, [icon.ico], an
    ICO container with an entry for each of the six sizes, and
    [icon.icns], an ICNS container of the source; every other file found
    afterwards was there before, unchanged. *)
Theorem C1_full_file_set decoder src out d im0 w :
  node (files w) src = Some (File d) → decoder d = Some im0 →
  (512 ≤ fst (size im0))%Z → (512 ≤ snd (size im0))%Z →
  output_dir_usable (files w) out full_file_set = true →
  ∃ w',
    generate_tauri_icons decoder src out w = (Val tt, w')
    ∧ saved_paths (new_events w w') = map (os_path_join out) full_file_set
    ∧ (∀ f, f ∈ take 14 full_file_set →
            ∃ sz, (f, sz) ∈ png_files ++ windows_tile_files
                  ∧ files w' !! os_path_join out f
                    = Some (File (PngFile (resize (convert im0 ModeRGBA)
                                             (sz, sz) LANCZOS))))
    ∧ files w' !! os_path_join out "icon.ico"
      = Some (File (IcoFile
                (map (λ s, Thumbnail s LANCZOS (convert im0 ModeRGBA))
                   [(16, 16); (32, 32); (48, 48); (64, 64); (128, 128);
                    (256, 256)]%Z)))
    ∧ files w' !! os_path_join out "icon.icns"
      = Some (File (IcnsFile (convert im0 ModeRGBA)))
    ∧ (∀ f, f ∈ full_file_set →
            ∃ c, files w' !! os_path_join out f = Some (File c))
    ∧ (∀ p c, files w' !! p = Some (File c) →
              (∃ f, f ∈ full_file_set ∧ p = os_path_join out f)
              ∨ files w !! p = Some (File c)).
Proof.
  intros Hn Hd Hw Hh Huse.
  pose proof (large_enough_true im0 Hw Hh) as Hbig.
  assert (Hnames : written_names im0 = full_file_set).
  { unfold written_names. by rewrite Hbig. }
  rewrite <- Hnames in Huse.
  destruct (generate_exports_summary decoder src out d im0 w Hn Hd Huse
              (large_enough_ico_fits im0 Hbig))
    as (w' & mk & Hrun & Hevs & Hmk & Hin & Hout).
  exists w'. split; [exact Hrun |]. split; [| split; [| split; [| split; [| split]]]].
  - rewrite Hevs, !saved_paths_app, setup_saved, saved_paths_export by done.
    by rewrite <- Hnames.
  - intros f Hf. destruct (png_name_in_table f Hf) as [sz Hsz].
    exists sz. split; [done |]. apply Hin.
    apply (last_named_png _ (f, sz) Hsz).
  - rewrite (Hin "icon.ico" _ (last_named_ico _)).
    rewrite ico_entries_all; [done | simpl; lia..].
  - apply Hin. by apply last_named_icns.
  - intros f Hf.
    destruct (last_named_is_Some f (named_writes (convert im0 ModeRGBA)))
      as [c Hc].
    { rewrite named_writes_names. change (f ∈ written_names im0).
      by rewrite Hnames. }
    exists c. by apply Hin.
  - intros p c Hp.
    destruct (decide (p ∈ map (os_path_join out) (written_names im0))) as [Hm | Hm].
    + left. apply list_elem_of_fmap in Hm as (f & -> & Hf).
      rewrite Hnames in Hf. eauto.
    + right. destruct (Hout p) as [<- | (_ & Hdir & _)]; [| done | congruence].
      intros f Hf ->. apply Hm. apply list_elem_of_fmap. eauto.
Qed.

Lemma C1_full_file_set_witness :
  ∃ w',
    generate_tauri_icons sample_decoder ["dog.png"] ["icons"]
      (sample_world "1024x1024") = (Val tt, w')
    ∧ saved_paths (new_events (sample_world "1024x1024") w')
      = map (os_path_join ["icons"]) full_file_set
    ∧ (∀ f, f ∈ take 14 full_file_set →
            ∃ sz, (f, sz) ∈ png_files ++ windows_tile_files
                  ∧ files w' !! os_path_join ["icons"] f
                    = Some (File (PngFile
                              (resize (convert (Decoded 1024 1024 ModeRGB 1)
                                         ModeRGBA) (sz, sz) LANCZOS))))
    ∧ files w' !! os_path_join ["icons"] "icon.ico"
      = Some (File (IcoFile
                (map (λ s, Thumbnail s LANCZOS
                             (convert (Decoded 1024 1024 ModeRGB 1) ModeRGBA))
                   [(16, 16); (32, 32); (48, 48); (64, 64); (128, 128);
                    (256, 256)]%Z)))
    ∧ files w' !! os_path_join ["icons"] "icon.icns"
      = Some (File (IcnsFile (convert (Decoded 1024 1024 ModeRGB 1) ModeRGBA)))
    ∧ (∀ f, f ∈ full_file_set →
            ∃ c, files w' !! os_path_join ["icons"] f = Some (File c))
    ∧ (∀ p c, files w' !! p = Some (File c) →
              (∃ f, f ∈ full_file_set ∧ p = os_path_join ["icons"] f)
              ∨ files (sample_world "1024x1024") !! p = Some (File c)).
Proof.
  apply (C1_full_file_set sample_decoder ["dog.png"] ["icons"]
           (Raw "1024x1024") (Decoded 1024 1024 ModeRGB 1)).
  - reflexivity.
  - reflexivity.
  - simpl. lia.
  - simpl. lia.
  - vm_compute. reflexivity.
Defined.

Section PngOutputs.

Variable decoder : FileData → option Image.

(** The PNGs of a run whose source decodes, whatever happens at the
    containers afterwards. *)
Lemma generate_pngs src out d im0 w :
  node (files w) src = Some (File d) → decoder d = Some im0 →
  output_dir_usable (files w) out png_names = true →
  ∃ mk evs,
    Forall setup_event mk
    ∧ new_events w (generate_tauri_icons decoder src out w).2
      = mk ++ [EvOpen src; EvPrint (MsgLoaded src (size im0))]
           ++ [EvPrint MsgPngHeader]
           ++ png_events (convert im0 ModeRGBA) out png_files
           ++ [EvPrint MsgTileHeader]
           ++ png_events (convert im0 ModeRGBA) out windows_tile_files
           ++ evs
    ∧ ∀ entry, entry ∈ png_files ++ windows_tile_files →
        files (generate_tauri_icons decoder src out w).2
          !! os_path_join out entry.1
        = Some (File (PngFile (resize (convert im0 ModeRGBA)
                                 (entry.2, entry.2) LANCZOS))).
Proof.
  intros Hn Hd Huse.
  destruct (generate_reaches_export decoder src out d im0 png_names w Hn Hd Huse)
    as (fs1 & mk & Hrun & Hnew & Hmk & Hready).
  rewrite Hrun.
  rewrite (export_icons_after_loops _ out png_names) by done.
  rewrite extend_extend, files_extend.
  set (img := convert im0 ModeRGBA).
  set (w4 := extend w _ _).
  destruct (changes_only_export_containers img out w4) as [Hfiles (evs & Hevs)].
  exists mk, evs. split; [done |]. split.
  - unfold new_events. rewrite Hevs. unfold w4, extend. simpl.
    by rewrite <- !app_assoc, drop_app_length.
  - intros entry Hentry. rewrite Hfiles.
    + unfold w4. rewrite files_extend, lookup_write_all, last_write_at_dir.
      by rewrite last_named_png_only.
    + destruct (table_name_not_container entry Hentry) as [H1 H2].
      intros Hin. apply list_elem_of_In in Hin. simpl in Hin.
      destruct Hin as [[=] | [[=] | []]]; congruence.
Qed.

End PngOutputs.

(** C2. For every entry (filename, size) of the two tables and every
    source that decodes, the run saves at <output_dir>/<filename> a PNG of
    the RGBA source resized to (size, size) with the LANCZOS filter; that
    file is there when the run ends, however the run goes on after the two
    loops, and its image is size by size. *)
Theorem C2_png_dimensions decoder src out d im0 w filename sz :
  (filename, sz) ∈ png_files ++ windows_tile_files →
  node (files w) src = Some (File d) → decoder d = Some im0 →
  output_dir_usable (files w) out png_names = true →
  let resized_img := resize (convert im0 ModeRGBA) (sz, sz) LANCZOS in
  ∃ r w',
    generate_tauri_icons decoder src out w = (r, w')
    ∧ EvSave (os_path_join out filename) (PngFile resized_img) ∈ new_events w w'
    ∧ files w' !! os_path_join out filename = Some (File (PngFile resized_img))
    ∧ size resized_img = (sz, sz).
Proof.
  intros Hentry Hn Hd Huse resized_img.
  destruct (generate_pngs decoder src out d im0 w Hn Hd Huse)
    as (mk & evs & Hmk & Hevs & Hfiles).
  destruct (generate_tauri_icons decoder src out w) as [r w'] eqn:Hrun.
  cbn [snd] in Hevs, Hfiles.
  exists r, w'. split; [done |]. split; [| split; [| reflexivity]].
  - rewrite Hevs. apply elem_of_app in Hentry as [Hin | Hin].
    + do 3 (apply elem_of_app; right). apply elem_of_app. left.
      apply (png_events_elem _ out png_files (filename, sz) Hin).
    + do 5 (apply elem_of_app; right). apply elem_of_app. left.
      apply (png_events_elem _ out windows_tile_files (filename, sz) Hin).
  - exact (Hfiles (filename, sz) Hentry).
Qed.

Lemma C2_png_dimensions_witness :
  ∃ r w',
    generate_tauri_icons sample_decoder ["dog.png"] ["icons"]
      (sample_world "15x15") = (r, w')
    ∧ EvSave ["Square71x71Logo.png"; "icons"]
        (PngFile (Resized (71, 71)%Z LANCZOS
                    (Converted ModeRGBA (Decoded 15 15 ModeRGB 4))))
      ∈ new_events (sample_world "15x15") w'
    ∧ files w' !! ["Square71x71Logo.png"; "icons"]
      = Some (File (PngFile (Resized (71, 71)%Z LANCZOS
                               (Converted ModeRGBA (Decoded 15 15 ModeRGB 4)))))
    ∧ size (Resized (71, 71)%Z LANCZOS
              (Converted ModeRGBA (Decoded 15 15 ModeRGB 4))) = (71, 71)%Z.
Proof.
  apply (C2_png_dimensions sample_decoder ["dog.png"] ["icons"]
           (Raw "15x15") (Decoded 15 15 ModeRGB 4) (sample_world "15x15")
           "Square71x71Logo.png" 71%Z).
  - vm_compute. do 6 right. left.
  - reflexivity.
  - reflexivity.
  - vm_compute. reflexivity.
Defined.

(** C3. The run hands the source as it is to the ICO writer, which makes
    an entry only for the requested sizes that fit in it: on a 100 by 100
    source the run returns normally and reports the six sizes (line 77),
    but [icon.ico] holds four entries, of 16, 32, 48 and 64 pixels, and
    none of 128 or 256. *)
Lemma C3_ico_of_small_source :
  small_source_run.1 = Val tt
  ∧ EvPrint (MsgIcoGenerated
               [(16, 16); (32, 32); (48, 48); (64, 64); (128, 128); (256, 256)]%Z)
    ∈ events small_source_run.2
  ∧ files small_source_run.2 !! ["icon.ico"; "icons"]
    = Some (File (IcoFile
              (map (λ s, Thumbnail s LANCZOS
                           (Converted ModeRGBA (Decoded 100 100 ModeP 3)))
                 [(16, 16); (32, 32); (48, 48); (64, 64)]%Z)))
  ∧ map entry_size
      (map (λ s, Thumbnail s LANCZOS
                   (Converted ModeRGBA (Decoded 100 100 ModeP 3)))
         [(16, 16); (32, 32); (48, 48); (64, 64)]%Z)
    = [Some (16, 16); Some (32, 32); Some (48, 48); Some (64, 64)]%Z.
Proof.
  split; [by vm_compute |]. split; [| split; [by vm_compute | by vm_compute]].
  vm_compute. do 36 right. left.
Qed.

(** C4. The same call makes the run fail on a source below 16 pixels: on
    a 15 by 15 source no requested size fits, the ICO [save] of line 76
    raises [ValueError], which nothing catches, and the run ends there,
    after the fourteen PNGs and the ICO header message: no [icon.ico], no
    warning about [icon.icns], no closing message. *)
Lemma C4_tiny_source_raises :
  sample_decoder (Raw "15x15") = Some (Decoded 15 15 ModeRGB 4)
  ∧ tiny_source_run.1 = Raise ValueError
  ∧ saved_paths (events tiny_source_run.2)
    = map (os_path_join ["icons"]) png_names
  ∧ last (events tiny_source_run.2) = Some (EvPrint MsgIcoHeader)
  ∧ files tiny_source_run.2 !! ["icon.ico"; "icons"] = None
  ∧ files tiny_source_run.2 !! ["icon.icns"; "icons"] = None.
Proof. by vm_compute. Qed.

(** C10. A 1024 by 10 source has one dimension of at least 512 and the
    other below it, and the run never gets to the test of line 85: no
    requested ICO size fits, the [save] of line 76 raises [ValueError],
    and the run ends after the fourteen PNGs and the ICO header message,
    with no [icon.ico] and no warning. *)
Lemma C10_flat_source_raises :
  sample_decoder (Raw "1024x10") = Some (Decoded 1024 10 ModeRGB 5)
  ∧ flat_source_run.1 = Raise ValueError
  ∧ saved_paths (events flat_source_run.2)
    = map (os_path_join ["icons"]) png_names
  ∧ last (events flat_source_run.2) = Some (EvPrint MsgIcoHeader)
  ∧ files flat_source_run.2 !! ["icon.ico"; "icons"] = None
  ∧ files flat_source_run.2 !! ["icon.icns"; "icons"] = None.
Proof. by vm_compute. Qed.

Lemma written_names_small im :
  large_enough im = false → written_names im = file_set_without_icns.
Proof. intros H. unfold written_names. by rewrite H. Qed.

Lemma icns_not_written_small im f :
  large_enough im = false → f ∈ written_names im → f ≠ "icon.icns".
Proof.
  intros H Hf. rewrite (written_names_small im H) in Hf.
  apply list_elem_of_In in Hf. vm_compute in Hf.
  repeat (destruct Hf as [<- | Hf]; [done |]). done.
Qed.

Lemma export_events_small img out :
  large_enough img = false →
  EvPrint MsgIcnsWarning ∈ export_events img out.
Proof.
  intros H. unfold export_events. rewrite H.
  do 7 (apply elem_of_app; right). apply elem_of_app. left. left.
Qed.

Lemma last_app_export (l : list Event) img out :
  last (l ++ export_events img out) = Some (EvPrint (MsgDone out)).
Proof. unfold export_events. rewrite !app_assoc. apply last_snoc. Qed.

Section Undersized.

Variable decoder : FileData → option Image.

(** What a run does when the test of line 85 fails, on a source of at
    least 16 by 16. *)
Lemma generate_without_icns src out d im0 w :
  node (files w) src = Some (File d) → decoder d = Some im0 →
  large_enough im0 = false → ico_fits im0 = true →
  output_dir_usable (files w) out file_set_without_icns = true →
  ∃ w',
    generate_tauri_icons decoder src out w = (Val tt, w')
    ∧ saved_paths (new_events w w')
      = map (os_path_join out) file_set_without_icns
    ∧ (∀ f, f ∈ file_set_without_icns →
            ∃ c, files w' !! os_path_join out f = Some (File c))
    ∧ files w' !! os_path_join out "icon.icns"
      = files w !! os_path_join out "icon.icns"
    ∧ EvPrint MsgIcnsWarning ∈ new_events w w'
    ∧ last (new_events w w') = Some (EvPrint (MsgDone out)).
Proof.
  intros Hn Hd Hsmall Hfit Huse.
  rewrite <- (written_names_small im0 Hsmall) in *.
  destruct (generate_exports_summary decoder src out d im0 w Hn Hd Huse Hfit)
    as (w' & mk & Hrun & Hevs & Hmk & Hin & Hout).
  exists w'. split; [exact Hrun |]. repeat split.
  - rewrite Hevs, !saved_paths_app, setup_saved, saved_paths_export by done.
    reflexivity.
  - intros f Hf.
    destruct (last_named_is_Some f (named_writes (convert im0 ModeRGBA)))
      as [c Hc].
    { by rewrite named_writes_names. }
    exists c. by apply Hin.
  - destruct (Hout (os_path_join out "icon.icns")) as [-> | (_ & _ & Hs)].
    + intros f Hf [= <-]. by eapply icns_not_written_small.
    + done.
    + by apply not_suffix_cons in Hs.
  - rewrite Hevs. do 2 (apply elem_of_app; right).
    by apply export_events_small.
  - rewrite Hevs, !app_assoc. apply last_app_export.
Qed.

End Undersized.

(** C5. For every source path at which nothing exists, the run returns
    after its first test: the file system is what it was, so no file is
    written and no directory created, and the one thing it does is to
    report the missing source. *)
Theorem C5_missing_source decoder src out w :
  node (files w) src = None →
  ∃ w',
    generate_tauri_icons decoder src out w = (Val tt, w')
    ∧ files w' = files w
    ∧ new_events w w' = [EvPrint (MsgMissingSource src)].
Proof.
  intros Hn. eexists. split; [by apply generate_missing |].
  split; [reflexivity | by rewrite new_events_extend].
Qed.

Lemma C5_missing_source_witness :
  ∃ w',
    generate_tauri_icons sample_decoder ["cat.png"] ["icons"]
      (sample_world "1024x1024") = (Val tt, w')
    ∧ files w' = files (sample_world "1024x1024")
    ∧ new_events (sample_world "1024x1024") w'
      = [EvPrint (MsgMissingSource ["cat.png"])].
Proof.
  apply (C5_missing_source sample_decoder ["cat.png"] ["icons"]).
  reflexivity.
Defined.

Lemma unreadable_not_decodes decoder fs src n :
  node fs src = Some n → unreadable decoder n →
  ∀ im0, ¬ decodes_to decoder fs src im0.
Proof.
  intros Hn Hu im0 (d & Hd & Hdec). rewrite Hn in Hd. injection Hd as ->.
  simpl in Hu. congruence.
Qed.

Lemma only_new_dirs_files fs fs' out p c :
  only_new_dirs fs fs' out →
  fs' !! p = Some (File c) ↔ fs !! p = Some (File c).
Proof.
  intros Hnew. destruct (Hnew p) as [-> | (Hn & Hd & _)]; [done |].
  rewrite Hn, Hd. split; discriminate.
Qed.

(** C6, as the code has it. For every source path that exists but cannot
    be read as an image, no file is written, whatever the outcome: every
    file that exists afterwards existed before with the same content. The
    output directory, however, is made before the image is opened, so the
    file system changes when that directory was missing; it is unchanged
    when something existed at the output path already. When the directory
    step goes through, the run reports the failure as its last message and
    returns normally. *)
Theorem C6_decode_failure decoder src out n w :
  node (files w) src = Some n → unreadable decoder n →
  ∃ r w',
    generate_tauri_icons decoder src out w = (r, w')
    ∧ saved_paths (new_events w w') = []
    ∧ (∀ p c, files w' !! p = Some (File c) ↔ files w !! p = Some (File c))
    ∧ only_new_dirs (files w) (files w') out
    ∧ (is_Some (node (files w) out) → files w' = files w)
    ∧ (dir_step_passes (files w) out = true →
       r = Val tt
       ∧ ∃ e, last (new_events w w') = Some (EvPrint (MsgCannotOpen e))).
Proof.
  intros Hn Hu.
  destruct (dir_step_passes (files w) out) eqn:Hpass.
  - destruct (generate_unreadable decoder src out n w Hn Hu Hpass)
      as (fs1 & mk & e & Hrun & Hnew & Hmk & Hsame).
    eexists _, _. split; [exact Hrun |].
    rewrite new_events_extend, files_extend.
    split; [by rewrite saved_paths_app, setup_saved |].
    split; [intros p c; by apply only_new_dirs_files with out |].
    split; [exact Hnew |]. split; [intros Hex; by apply Hsame |].
    intros _. split; [done |]. exists e. by rewrite last_app.
  - assert (Hnot : ¬ is_Some (node (files w) out)).
    { intros Hex. unfold dir_step_passes in Hpass.
      by rewrite bool_decide_eq_true_2 in Hpass. }
    pose proof (unreadable_not_decodes decoder (files w) src n Hn Hu) as Hno.
    destruct (generate_tauri_icons decoder src out w) as [r w'] eqn:Hrun.
    exists r, w'. split; [done |].
    pose proof (generate_outcomes decoder src out w) as Hcases.
    rewrite Hrun in Hcases. cbn [fst snd] in Hcases.
    destruct Hcases
      as [[Hnone _] | [(e & _ & _ & _ & F & Hnew)
         | [(mk & e & _ & _ & _ & F & E & Hnew) | (mk & im0 & ex & _ & _ & Hdec & _)]]].
    + congruence.
    + split; [by apply setup_saved |].
      split; [intros p c; by apply only_new_dirs_files with out |].
      split; [exact Hnew |]. split; [done | done].
    + split; [by rewrite E, saved_paths_app, setup_saved |].
      split; [intros p c; by apply only_new_dirs_files with out |].
      split; [exact Hnew |]. split; [done | done].
    + by apply Hno in Hdec.
Qed.

Lemma C6_decode_failure_witness :
  ∃ r w',
    generate_tauri_icons sample_decoder ["notes.txt"] ["icons"]
      (sample_world "1024x1024") = (r, w')
    ∧ saved_paths (new_events (sample_world "1024x1024") w') = []
    ∧ (∀ p c, files w' !! p = Some (File c)
              ↔ files (sample_world "1024x1024") !! p = Some (File c))
    ∧ only_new_dirs (files (sample_world "1024x1024")) (files w') ["icons"]
    ∧ (is_Some (node (files (sample_world "1024x1024")) ["icons"]) →
       files w' = files (sample_world "1024x1024"))
    ∧ (dir_step_passes (files (sample_world "1024x1024")) ["icons"] = true →
       r = Val tt
       ∧ ∃ e, last (new_events (sample_world "1024x1024") w')
              = Some (EvPrint (MsgCannotOpen e))).
Proof.
  apply (C6_decode_failure sample_decoder ["notes.txt"] ["icons"]
           (File (Raw "to do"))).
  - reflexivity.
  - reflexivity.
Defined.

(** C6 as stated fails when the output directory is missing: on a source
    that is not an image the run returns without writing a file, but it
    has created [icons] by then. *)
Lemma C6_counterexample :
  sample_decoder (Raw "to do") = None
  ∧ text_source_run.1 = Val tt
  ∧ files (sample_world "1024x1024") !! ["icons"] = None
  ∧ files text_source_run.2 !! ["icons"] = Some Dir
  ∧ files text_source_run.2 ≠ files (sample_world "1024x1024").
Proof.
  split; [reflexivity |]. split; [by vm_compute |].
  split; [by vm_compute |]. split; [by vm_compute |].
  intros Heq. apply (f_equal (λ fs : gmap path Node, fs !! ["icons"])) in Heq.
  vm_compute in Heq. discriminate Heq.
Qed.

(** ** Running twice *)





(** Why the source must not be one of the written files: with
    [icons/icon.png] as the source, the first run replaces it by its own
    512 by 512 resize, the second run then starts from another image, and
    the two results differ. *)
Example second_run_on_overwritten_source :
  overwritten_first_run.1 = Val tt
  ∧ overwritten_second_run.1 = Val tt
  ∧ files overwritten_second_run.2 ≠ files overwritten_first_run.2.
Proof.
  split; [by vm_compute |]. split; [by vm_compute |].
  intros Heq.
  apply (f_equal (λ fs : gmap path Node, fs !! ["32x32.png"; "icons"])) in Heq.
  vm_compute in Heq. discriminate Heq.
Qed.

Lemma setup_from_image img mk :
  Forall setup_event mk → Forall (from_image img) mk.
Proof.
  intros H. eapply Forall_impl; [exact H |]. by intros [| | |m].
Qed.

Lemma decodes_to_unique decoder fs src im0 im1 :
  decodes_to decoder fs src im0 → decodes_to decoder fs src im1 → im0 = im1.
Proof. intros (d & Hn & Hd) (d' & Hn' & Hd'). congruence. Qed.

(** C8. For every source that decodes, in a run that gets past the
    directory step, the source is opened once, before any file is saved,
    and converted to RGBA; every file saved afterwards, up to the end of
    the run or to the [save] that raises, is encoded from that one
    converted image or from a resize of it, and so from an RGBA image. *)
Theorem C8_single_rgba_source decoder src out d im0 w :
  node (files w) src = Some (File d) → decoder d = Some im0 →
  dir_step_passes (files w) out = true →
  ∃ r w',
    generate_tauri_icons decoder src out w = (r, w')
    ∧ mode (convert im0 ModeRGBA) = ModeRGBA
    ∧ opened_paths (new_events w w') = [src]
    ∧ (∃ before after rest,
         new_events w w' = before ++ EvOpen src :: after
         ∧ saved_paths before = []
         ∧ map (os_path_join out) (written_names im0)
           = saved_paths after ++ rest
         ∧ (r = Val tt → rest = []))
    ∧ Forall (from_image (convert im0 ModeRGBA)) (new_events w w').
Proof.
  intros Hn Hd Hpass.
  assert (Hdec : decodes_to decoder (files w) src im0) by (by exists d).
  destruct (make_output_dir_run out w Hpass) as (fs1 & mk1 & Hmk1 & _).
  destruct (generate_tauri_icons decoder src out w) as [r w'] eqn:Hrun.
  exists r, w'. split; [done |]. split; [reflexivity |].
  pose proof (generate_outcomes decoder src out w) as Hcases.
  rewrite Hrun, Hmk1 in Hcases. cbn [fst snd] in Hcases.
  destruct Hcases
    as [[Hnone _] | [(e & _ & _ & [=] & _)
       | [(mk & e & _ & _ & Hno & _) | (mk & im1 & ex & _ & F & Hdec1 & Fx & Fi & E & Hres)]]].
  - congruence.
  - by apply Hno in Hdec.
  - rewrite (decodes_to_unique _ _ _ _ _ Hdec1 Hdec) in *. rewrite E.
    split; [| split].
    + rewrite !opened_paths_app, setup_opened by done.
      change ([src] ++ opened_paths ex = [src]).
      by rewrite (export_opened out).
    + destruct r as [[]|e].
      * exists mk, (EvPrint (MsgLoaded src (size im0)) :: ex), [].
        split; [done |]. split; [by apply setup_saved |].
        split; [by rewrite app_nil_r |]. done.
      * destruct Hres as [_ (rest & _ & Hrest)].
        exists mk, (EvPrint (MsgLoaded src (size im0)) :: ex), rest.
        split; [done |]. split; [by apply setup_saved |].
        split; [exact Hrest | done].
    + apply Forall_app. split; [by apply setup_from_image |].
      apply Forall_app. split; [by repeat constructor | done].
Qed.

Lemma C8_single_rgba_source_witness :
  ∃ r w',
    generate_tauri_icons sample_decoder ["dog.png"] ["icons"]
      (sample_world "15x15") = (r, w')
    ∧ mode (convert (Decoded 15 15 ModeRGB 4) ModeRGBA) = ModeRGBA
    ∧ opened_paths (new_events (sample_world "15x15") w') = [["dog.png"]]
    ∧ (∃ before after rest,
         new_events (sample_world "15x15") w'
         = before ++ EvOpen ["dog.png"] :: after
         ∧ saved_paths before = []
         ∧ map (os_path_join ["icons"])
             (written_names (Decoded 15 15 ModeRGB 4))
           = saved_paths after ++ rest
         ∧ (r = Val tt → rest = []))
    ∧ Forall (from_image (convert (Decoded 15 15 ModeRGB 4) ModeRGBA))
        (new_events (sample_world "15x15") w').
Proof.
  apply (C8_single_rgba_source sample_decoder ["dog.png"] ["icons"]
           (Raw "15x15") (Decoded 15 15 ModeRGB 4)).
  - reflexivity.
  - reflexivity.
  - vm_compute. reflexivity.
Defined.



(** C9. On its two handled error paths the routine returns normally, its
    last act being the message of that path: when nothing exists at the
    source path, and when the source exists but cannot be read as an
    image (step 2, before the [try] block, having gone through). *)
Theorem C9_handled_errors_return decoder src out w :
  node (files w) src = None
  ∨ (∃ n, node (files w) src = Some n ∧ unreadable decoder n
          ∧ dir_step_passes (files w) out = true) →
  ∃ w' m,
    generate_tauri_icons decoder src out w = (Val tt, w')
    ∧ last (events w') = Some (EvPrint m)
    ∧ match node (files w) src with
      | None => m = MsgMissingSource src
      | Some _ => ∃ e, m = MsgCannotOpen e
      end.
Proof.
  intros [Hn | (n & Hn & Hu & Hpass)].
  - eexists _, _. split; [by apply generate_missing |].
    split; [apply last_snoc |]. by rewrite Hn.
  - destruct (generate_unreadable decoder src out n w Hn Hu Hpass)
      as (fs1 & mk & e & Hrun & _).
    eexists _, _. split; [exact Hrun |]. split.
    + unfold extend. simpl. by rewrite !last_app.
    + rewrite Hn. eauto.
Qed.

Lemma C9_handled_errors_return_witness :
  ∃ w' m,
    generate_tauri_icons sample_decoder ["notes.txt"] ["icons"]
      (sample_world "100x100") = (Val tt, w')
    ∧ last (events w') = Some (EvPrint m)
    ∧ match node (files (sample_world "100x100")) ["notes.txt"] with
      | None => m = MsgMissingSource ["notes.txt"]
      | Some _ => ∃ e, m = MsgCannotOpen e
      end.
Proof.
  apply (C9_handled_errors_return sample_decoder ["notes.txt"] ["icons"]).
  right. exists (File (Raw "to do")).
  split; [reflexivity |]. split; [reflexivity |]. vm_compute. reflexivity.
Defined.
(** ** Further properties of the routine *)

(** X1. Whatever the outcome of a run, also when it raises, each path
    keeps its node, or was missing and is now a directory on the way to
    the output directory, or is one of the sixteen output paths and now
    holds a file where no directory was. *)
Theorem X1_run_touches_only_outputs decoder src out w q :
  files (generate_tauri_icons decoder src out w).2 !! q = files w !! q
  ∨ (files w !! q = None
     ∧ files (generate_tauri_icons decoder src out w).2 !! q = Some Dir
     ∧ q `suffix_of` out)
  ∨ (∃ f c, q = os_path_join out f ∧ f ∈ full_file_set
            ∧ files (generate_tauri_icons decoder src out w).2 !! q
              = Some (File c)
            ∧ files w !! q ≠ Some Dir).
Proof.
  destruct (generate_keeps decoder src out w) as [[Ht _] _].
  destruct (Ht q) as [E | [(_ & ? & ? & ?) | (f & c & ? & ? & ? & ? & _)]].
  - by left.
  - right. by left.
  - right. right. by exists f, c.
Qed.

(** X2. A run never deletes a node and never turns a directory into a
    file or a file into a directory; a node that is not at one of the
    output paths, the source file among them, is the same after the run,
    whatever its outcome. *)
Theorem X2_existing_nodes_survive decoder src out w q n :
  files w !! q = Some n →
  match n with
  | Dir => files (generate_tauri_icons decoder src out w).2 !! q = Some Dir
  | File _ => ∃ c, files (generate_tauri_icons decoder src out w).2 !! q
                   = Some (File c)
  end
  ∧ (q ∉ map (os_path_join out) full_file_set →
     files (generate_tauri_icons decoder src out w).2 !! q = Some n).
Proof.
  intros Hq. destruct (generate_keeps decoder src out w) as [[Ht _] _].
  destruct (Ht q) as [E | [(_ & ? & _) | (f & c & -> & Hf & Hc & Hnd & _)]].
  - rewrite E, Hq. split; [destruct n; eauto | done].
  - congruence.
  - split.
    + destruct n; [done | eauto].
    + intros Hnot. exfalso. apply Hnot. apply list_elem_of_fmap. eauto.
Qed.

Lemma X2_existing_nodes_survive_witness :
  (∃ c, files (generate_tauri_icons sample_decoder ["dog.png"] ["icons"]
                 (sample_world "1024x1024")).2 !! ["dog.png"]
        = Some (File c))
  ∧ (["dog.png"] ∉ map (os_path_join ["icons"]) full_file_set →
     files (generate_tauri_icons sample_decoder ["dog.png"] ["icons"]
              (sample_world "1024x1024")).2 !! ["dog.png"]
     = Some (File (Raw "1024x1024"))).
Proof.
  apply (X2_existing_nodes_survive sample_decoder ["dog.png"] ["icons"]
           (sample_world "1024x1024") ["dog.png"] (File (Raw "1024x1024"))).
  reflexivity.
Defined.

(** X3. Every path a run saves is one of the sixteen output paths and
    holds a file when the run ends, also when the run ends by raising:
    what was written before a failure stays. *)
Theorem X3_saved_files_stay decoder src out w p :
  p ∈ saved_paths (new_events w (generate_tauri_icons decoder src out w).2) →
  p ∈ map (os_path_join out) full_file_set
  ∧ ∃ c, files (generate_tauri_icons decoder src out w).2 !! p = Some (File c).
Proof.
  intros Hp. destruct (generate_keeps decoder src out w) as [Hg _].
  apply grows_new_events in Hg as (_ & F & S).
  split; [by eapply run_event_saved | by apply S].
Qed.

Lemma X3_saved_files_stay_witness :
  ["StoreLogo.png"; "icons"] ∈ map (os_path_join ["icons"]) full_file_set
  ∧ ∃ c, files (generate_tauri_icons sample_decoder ["dog.png"] ["icons"]
                  (sample_world "100x100")).2 !! ["StoreLogo.png"; "icons"]
         = Some (File c).
Proof.
  apply (X3_saved_files_stay sample_decoder ["dog.png"] ["icons"]
           (sample_world "100x100") ["StoreLogo.png"; "icons"]).
  vm_compute. do 13 right. left.
Defined.

(** X4. In every run, whatever its outcome, [Image.open] is called at
    most once and on the source path; nothing is saved before that call,
    and nothing at all when it is not made. *)
Theorem X4_opens_once_before_saving decoder src out w :
  (opened_paths (new_events w (generate_tauri_icons decoder src out w).2) = []
   ∧ saved_paths (new_events w (generate_tauri_icons decoder src out w).2) = [])
  ∨ ∃ before after,
      new_events w (generate_tauri_icons decoder src out w).2
      = before ++ EvOpen src :: after
      ∧ opened_paths before = [] ∧ saved_paths before = []
      ∧ opened_paths after = [].
Proof.
  destruct (generate_events decoder src out w)
    as [[-> _] | [(e & _ & F) | [(mk & e & _ & F & ->)
       | (mk & im0 & ex & F & _ & Fx & -> & _)]]].
  - by left.
  - left. by rewrite setup_opened, setup_saved.
  - right. exists mk, [EvPrint (MsgCannotOpen e)].
    by rewrite setup_opened, setup_saved.
  - right. exists mk, (EvPrint (MsgLoaded src (size im0)) :: ex).
    split; [done |]. rewrite setup_opened, setup_saved by done.
    split; [done |]. split; [done |].
    change (opened_paths ex = []). by apply (export_opened out).
Qed.

(** X5. The closing message is only printed by a complete run: when it is
    among the events, the run has returned normally, the source was an
    image, and every file due for that image was saved, in order. *)
Theorem X5_closing_message_means_success decoder src out w :
  EvPrint (MsgDone out)
  ∈ new_events w (generate_tauri_icons decoder src out w).2 →
  (generate_tauri_icons decoder src out w).1 = Val tt
  ∧ ∃ im0, decodes_to decoder (files w) src im0
           ∧ saved_paths (new_events w (generate_tauri_icons decoder src out w).2)
             = map (os_path_join out) (written_names im0).
Proof.
  intros Hdone.
  destruct (generate_events decoder src out w)
    as [[E _] | [(e & _ & F) | [(mk & e & _ & F & E)
       | (mk & im0 & ex & F & Hdec & Fx & E & Hres)]]].
  - rewrite E in Hdone. apply list_elem_of_singleton in Hdone. done.
  - by apply setup_not_done in Hdone.
  - rewrite E in Hdone. apply elem_of_app in Hdone as [Hd | Hd].
    + by apply setup_not_done in Hd.
    + apply list_elem_of_In in Hd. simpl in Hd. by destruct Hd as [|[|]].
  - rewrite E in *.
    destruct ((generate_tauri_icons decoder src out w).1) as [[]|e].
    + destruct Hres as [Hs _]. split; [done |]. exists im0. split; [done |].
      by rewrite !saved_paths_app, setup_saved, Hs.
    + destruct Hres as [Hnd _]. exfalso.
      apply elem_of_app in Hdone as [Hd | Hd];
        [by apply setup_not_done in Hd |].
      apply elem_of_app in Hd as [Hd | Hd];
        [| by apply not_done_not_in in Hd].
      apply list_elem_of_In in Hd. simpl in Hd. by destruct Hd as [|[|]].
Qed.

Lemma X5_closing_message_means_success_witness :
  (generate_tauri_icons sample_decoder ["dog.png"] ["icons"]
     (sample_world "1024x400")).1 = Val tt
  ∧ ∃ im0, decodes_to sample_decoder (files (sample_world "1024x400"))
             ["dog.png"] im0
           ∧ saved_paths (new_events (sample_world "1024x400")
                            (generate_tauri_icons sample_decoder ["dog.png"]
                               ["icons"] (sample_world "1024x400")).2)
             = map (os_path_join ["icons"]) (written_names im0).
Proof.
  apply (X5_closing_message_means_success sample_decoder ["dog.png"] ["icons"]
           (sample_world "1024x400")).
  vm_compute. do 39 right. left.
Defined.

(** X6. When a run raises, the exception comes from [os.makedirs] or
    from a [save], never from opening or decoding the source, whose
    errors the [except] branch catches.  Either the directory step raised
    one of the three errors of [os.makedirs], and then the source was
    never opened and nothing was saved; or the source had been decoded
    and the run stopped at a [save], which raised an error of opening the
    file or the ICO writer's [ValueError], with an initial segment of its
    files saved and at least one missing. *)
Theorem X6_raise_is_from_makedirs_or_save decoder src out w e :
  (generate_tauri_icons decoder src out w).1 = Raise e →
  (e ∈ [FileNotFoundError; FileExistsError; NotADirectoryError]
   ∧ (make_output_dir out w).1 = Raise e
   ∧ opened_paths (new_events w (generate_tauri_icons decoder src out w).2) = []
   ∧ saved_paths (new_events w (generate_tauri_icons decoder src out w).2) = [])
  ∨ (e ∈ [FileNotFoundError; NotADirectoryError; IsADirectoryError; ValueError]
     ∧ ∃ im0 rest,
         decodes_to decoder (files w) src im0 ∧ rest ≠ []
         ∧ map (os_path_join out) (written_names im0)
           = saved_paths (new_events w (generate_tauri_icons decoder src out w).2)
             ++ rest).
Proof.
  intros Hr.
  destruct (generate_outcomes decoder src out w)
    as [[_ E] | [(e' & Hr' & He & Hmk & F & _)
       | [(mk & e' & Hv & _) | (mk & im0 & ex & _ & F & Hdec & Fx & _ & E & Hres)]]].
  - rewrite E in Hr. discriminate Hr.
  - left. rewrite Hr in Hr'. injection Hr' as <-.
    split; [destruct e; simpl in He; try done; repeat (first [by left | right]) |].
    split; [done |]. by rewrite setup_opened, setup_saved.
  - congruence.
  - right. rewrite Hr in Hres. destruct Hres as [He (rest & Hne & Hrest)].
    split; [destruct e; simpl in He; try done; repeat (first [by left | right]) |].
    exists im0, rest. split; [done |]. split; [done |].
    by rewrite E, !saved_paths_app, setup_saved.
Qed.

Lemma X6_raise_is_from_makedirs_or_save_witness :
  (ValueError ∈ [FileNotFoundError; FileExistsError; NotADirectoryError]
   ∧ (make_output_dir ["icons"] (sample_world "15x15")).1 = Raise ValueError
   ∧ opened_paths (new_events (sample_world "15x15") tiny_source_run.2) = []
   ∧ saved_paths (new_events (sample_world "15x15") tiny_source_run.2) = [])
  ∨ (ValueError
     ∈ [FileNotFoundError; NotADirectoryError; IsADirectoryError; ValueError]
     ∧ ∃ im0 rest,
         decodes_to sample_decoder (files (sample_world "15x15"))
           ["dog.png"] im0
         ∧ rest ≠ []
         ∧ map (os_path_join ["icons"]) (written_names im0)
           = saved_paths (new_events (sample_world "15x15") tiny_source_run.2)
             ++ rest).
Proof.
  apply (X6_raise_is_from_makedirs_or_save sample_decoder ["dog.png"]
           ["icons"] (sample_world "15x15") ValueError).
  vm_compute. reflexivity.
Defined.

(** ** Runs that raise *)

Lemma os_makedirs_blocked p w :
  p ≠ [] → files w !! p = None → dir_available (files w) p = false →
  os_makedirs p w = (Raise NotADirectoryError, w).
Proof.
  induction p as [|c head IH]; intros Hne Hnone Hav; [done |].
  simpl in Hav. rewrite Hnone in Hav.
  change (os_makedirs (c :: head)) with
    ((match head with
      | [] => ret tt
      | _ :: _ =>
          head_exists <- os_path_exists head ;;
          if head_exists then ret tt
          else try_except (os_makedirs head)
                 (fun e => match e with
                           | FileExistsError => ret tt
                           | _ => raise e
                           end)
      end) ;;; os_mkdir (c :: head)).
  destruct head as [|c' head']; [done |].
  unfold bind at 1. unfold bind at 1. unfold os_path_exists at 1.
  rewrite node_cons.
  destruct (files w !! (c' :: head')) as [[|d]|] eqn:Ehead.
  - simpl in Hav. by rewrite Ehead in Hav.
  - rewrite bool_decide_eq_true_2 by eauto. unfold ret, os_mkdir.
    by rewrite Hnone, node_cons, Ehead.
  - rewrite bool_decide_eq_false_2 by (intros [? ?]; done).
    unfold try_except. by rewrite IH.
Qed.

Lemma open_source_dir decoder src w :
  node (files w) src = Some Dir →
  open_source decoder src w
  = (Val None,
     extend w (files w) [EvOpen src; EvPrint (MsgCannotOpen IsADirectoryError)]).
Proof.
  intros Hn. unfold open_source, try_except, bind, Image_open. rewrite Hn.
  unfold print, ret, log, extend. simpl. by rewrite <- app_assoc.
Qed.

Lemma save_blocked im out f fmt w :
  node (files w) out = Some Dir → files w !! os_path_join out f = Some Dir →
  Image_save im (os_path_join out f) fmt w = (Raise IsADirectoryError, w).
Proof.
  intros Hd Hf. unfold Image_save, os_path_join in *. by rewrite Hd, Hf.
Qed.


(** X7. When nothing exists at the output path and, walking up from it,
    the first node that exists is a regular file, the routine raises
    [NotADirectoryError] out of [os.makedirs], which no handler
    surrounds: the source is not opened, nothing is printed and the file
    system is as it was. *)
Theorem X7_raises_when_directory_cannot_be_made decoder src out w :
  is_Some (node (files w) src) → node (files w) out = None →
  dir_available (files w) out = false →
  generate_tauri_icons decoder src out w = (Raise NotADirectoryError, w).
Proof.
  intros Hsrc Hout Hav.
  unfold generate_tauri_icons. unfold bind at 1. unfold os_path_exists at 1.
  rewrite bool_decide_eq_true_2 by done. cbn [negb].
  apply bind_Raise. unfold make_output_dir.
  unfold bind at 1. unfold os_path_exists at 1.
  rewrite Hout, bool_decide_eq_false_2 by (intros [? ?]; done). cbn [negb].
  apply bind_Raise. destruct out as [|c head]; [done |].
  by apply os_makedirs_blocked.
Qed.

Lemma X7_raises_when_directory_cannot_be_made_witness :
  generate_tauri_icons sample_decoder ["dog.png"] ["icons"; "notes.txt"]
    (sample_world "1024x1024")
  = (Raise NotADirectoryError, sample_world "1024x1024").
Proof.
  apply X7_raises_when_directory_cannot_be_made.
  - vm_compute. eauto.
  - reflexivity.
  - reflexivity.
Defined.

(** X8. When the output path exists but is a regular file, step 2 is
    passed over, the source is loaded, and the first [save] raises
    [NotADirectoryError]: no file is written and the file system is as it
    was. *)
Theorem X8_raises_when_output_is_a_file decoder src out d im0 c w :
  node (files w) src = Some (File d) → decoder d = Some im0 →
  node (files w) out = Some (File c) →
  generate_tauri_icons decoder src out w
  = (Raise NotADirectoryError,
     extend w (files w)
       [EvOpen src; EvPrint (MsgLoaded src (size im0)); EvPrint MsgPngHeader]).
Proof.
  intros Hn Hd Hout.
  unfold generate_tauri_icons. unfold bind at 1. unfold os_path_exists at 1.
  rewrite Hn, bool_decide_eq_true_2 by eauto. cbn [negb].
  erewrite bind_Val.
  2:{ unfold make_output_dir, bind, os_path_exists.
      rewrite Hout, bool_decide_eq_true_2 by eauto. reflexivity. }
  erewrite bind_Val by (by eapply open_source_ok).
  unfold export_icons.
  rewrite (bind_Val _ _ _ _ _ (print_run _ _)), extend_extend.
  apply bind_Raise. simpl for_each. apply bind_Raise.
  unfold save_resized. apply bind_Raise.
  unfold Image_save, os_path_join. by rewrite !files_extend, Hout.
Qed.

Lemma X8_raises_when_output_is_a_file_witness :
  generate_tauri_icons sample_decoder ["dog.png"] ["notes.txt"]
    (sample_world "1024x1024")
  = (Raise NotADirectoryError,
     extend (sample_world "1024x1024") (files (sample_world "1024x1024"))
       [EvOpen ["dog.png"];
        EvPrint (MsgLoaded ["dog.png"] (size (Decoded 1024 1024 ModeRGB 1)));
        EvPrint MsgPngHeader]).
Proof.
  apply (X8_raises_when_output_is_a_file sample_decoder ["dog.png"]
           ["notes.txt"] (Raw "1024x1024") (Decoded 1024 1024 ModeRGB 1)
           (Raw "to do")).
  - reflexivity.
  - reflexivity.
  - reflexivity.
Defined.

(** X9. There is no rollback: when [icon.ico] in the output directory is a
    directory, the run raises [IsADirectoryError] at that [save], after
    the fourteen PNGs have been saved, and each of them is left in place
    with its resized image. *)
Theorem X9_partial_output_is_left decoder src out d im0 w :
  node (files w) src = Some (File d) → decoder d = Some im0 →
  output_dir_usable (files w) out png_names = true →
  files w !! os_path_join out "icon.ico" = Some Dir →
  ∃ w',
    generate_tauri_icons decoder src out w = (Raise IsADirectoryError, w')
    ∧ saved_paths (new_events w w') = map (os_path_join out) png_names
    ∧ ∀ entry, entry ∈ png_files ++ windows_tile_files →
        files w' !! os_path_join out entry.1
        = Some (File (PngFile (resize (convert im0 ModeRGBA)
                                 (entry.2, entry.2) LANCZOS))).
Proof.
  intros Hn Hd Huse Hico.
  destruct (generate_reaches_export decoder src out d im0 png_names w Hn Hd Huse)
    as (fs1 & mk & Hrun & Hnew & Hmk & Hready).
  set (img := convert im0 ModeRGBA) in *.
  set (L := map (png_write img) (png_files ++ windows_tile_files)).
  assert (Hico1 : write_all fs1 (map (at_dir out) L) !! os_path_join out "icon.ico"
                  = Some Dir).
  { rewrite lookup_write_all, last_write_at_dir.
    change (last_named "icon.ico" L) with (@None FileData).
    destruct (Hnew (os_path_join out "icon.ico")) as [-> | (Hnone & _)];
      congruence. }
  exists (extend w (write_all fs1 (map (at_dir out) L))
            (mk ++ [EvOpen src; EvPrint (MsgLoaded src (size im0))]
                ++ [EvPrint MsgPngHeader] ++ png_events img out png_files
                ++ [EvPrint MsgTileHeader]
                ++ png_events img out windows_tile_files
                ++ [EvPrint MsgIcoHeader])).
  split; [| split].
  - rewrite Hrun. unfold export_icons.
    rewrite (bind_Val _ _ _ _ _ (print_run _ _)), extend_extend.
    erewrite bind_Val.
    2:{ eapply for_each_save_run; [rewrite files_extend; exact Hready |].
        unfold png_names. rewrite fmap_app. intros f Hf.
        apply elem_of_app. by left. }
    rewrite extend_extend.
    rewrite (bind_Val _ _ _ _ _ (print_run _ _)), extend_extend.
    erewrite bind_Val.
    2:{ eapply for_each_save_run.
        - rewrite !files_extend. apply ready_write_all. exact Hready.
        - unfold png_names. rewrite fmap_app. intros f Hf.
          apply elem_of_app. by right. }
    rewrite extend_extend.
    rewrite (bind_Val _ _ _ _ _ (print_run _ _)), extend_extend.
    rewrite !files_extend, <- write_all_app, <- !map_app.
    fold L. rewrite <- !app_assoc.
    apply bind_Raise. apply bind_Raise. apply save_blocked.
    + rewrite files_extend. apply (ready_write_all fs1 out png_names L Hready).
    + by rewrite files_extend.
  - rewrite new_events_extend, !saved_paths_app, setup_saved by done.
    reflexivity.
  - intros entry Hentry. rewrite files_extend, lookup_write_all, last_write_at_dir.
    unfold L. by rewrite last_named_png_only.
Qed.

Lemma X9_partial_output_is_left_witness :
  ∃ w',
    generate_tauri_icons sample_decoder ["dog.png"] ["icons"]
      sample_world_with_ico_dir = (Raise IsADirectoryError, w')
    ∧ saved_paths (new_events sample_world_with_ico_dir w')
      = map (os_path_join ["icons"]) png_names
    ∧ ∀ entry, entry ∈ png_files ++ windows_tile_files →
        files w' !! os_path_join ["icons"] entry.1
        = Some (File (PngFile (resize (convert (Decoded 1024 1024 ModeRGB 1)
                                         ModeRGBA)
                                 (entry.2, entry.2) LANCZOS))).
Proof.
  apply (X9_partial_output_is_left sample_decoder ["dog.png"] ["icons"]
           (Raw "1024x1024")).
  - reflexivity.
  - reflexivity.
  - vm_compute. reflexivity.
  - reflexivity.
Defined.

(** ** Edge cases of the source and of the containers *)

(** X10. A source path that is a directory passes the existence test of
    step 1: the run does not report a missing source but goes on to step
    2, fails to open the directory, and returns after the message of the
    [except] branch, with no file written. *)
Theorem X10_directory_source_is_reported decoder src out w :
  node (files w) src = Some Dir → dir_step_passes (files w) out = true →
  ∃ w' mk,
    generate_tauri_icons decoder src out w = (Val tt, w')
    ∧ Forall setup_event mk
    ∧ new_events w w'
      = mk ++ [EvOpen src; EvPrint (MsgCannotOpen IsADirectoryError)]
    ∧ only_new_dirs (files w) (files w') out.
Proof.
  intros Hn Hpass.
  destruct (make_output_dir_run out w Hpass)
    as (fs1 & mk & Hmk & Hnew & Hev & _ & _).
  assert (Hn1 : node fs1 src = Some Dir).
  { destruct src as [|c s]; [done |]. rewrite node_cons in *.
    destruct (Hnew (c :: s)) as [-> | (Hnone & _)]; congruence. }
  eexists _, mk. split; [| split; [exact Hev | split]].
  - unfold generate_tauri_icons. unfold bind at 1. unfold os_path_exists at 1.
    rewrite Hn, bool_decide_eq_true_2 by eauto. cbn [negb].
    rewrite (bind_Val _ _ _ _ _ Hmk).
    erewrite bind_Val by (by apply open_source_dir).
    by rewrite extend_extend.
  - by rewrite new_events_extend.
  - by rewrite files_extend.
Qed.

Lemma X10_directory_source_is_reported_witness :
  ∃ w' mk,
    generate_tauri_icons sample_decoder ["icons"] ["icons"]
      sample_world_with_ico_dir = (Val tt, w')
    ∧ Forall setup_event mk
    ∧ new_events sample_world_with_ico_dir w'
      = mk ++ [EvOpen ["icons"]; EvPrint (MsgCannotOpen IsADirectoryError)]
    ∧ only_new_dirs (files sample_world_with_ico_dir) (files w') ["icons"].
Proof.
  apply X10_directory_source_is_reported.
  - reflexivity.
  - vm_compute. reflexivity.
Defined.

Lemma export_events_ico_message img out :
  EvPrint (MsgIcoGenerated ico_sizes) ∈ export_events img out.
Proof.
  unfold export_events.
  do 6 (apply elem_of_app; right). apply elem_of_app. left. left.
Qed.

Lemma ico_entries_elem img sizes s f im :
  Thumbnail s f im ∈ ico_entries img sizes →
  ico_keeps (size img) s = true.
Proof.
  unfold ico_entries. intros H.
  apply list_elem_of_fmap in H as (s' & [= -> _ _] & Hs').
  apply list_elem_of_In, filter_In in Hs'. tauto.
Qed.

(** X11. The progress message of the Windows container lists the six
    requested sizes whatever the container holds: for a source of at
    least 16 by 16 that is narrower or lower than 256 the run prints all
    six, 256 among them, while the container it has written has no entry
    for the 256 by 256 size. *)
Theorem X11_ico_message_lists_requested_sizes decoder src out d im0 w :
  node (files w) src = Some (File d) → decoder d = Some im0 →
  (16 ≤ fst (size im0))%Z → (16 ≤ snd (size im0))%Z →
  (fst (size im0) < 256)%Z ∨ (snd (size im0) < 256)%Z →
  output_dir_usable (files w) out (written_names im0) = true →
  ∃ w' entries,
    generate_tauri_icons decoder src out w = (Val tt, w')
    ∧ EvPrint (MsgIcoGenerated ico_sizes) ∈ new_events w w'
    ∧ (256, 256)%Z ∈ ico_sizes
    ∧ files w' !! os_path_join out "icon.ico" = Some (File (IcoFile entries))
    ∧ ∀ f im, Thumbnail (256, 256)%Z f im ∉ entries.
Proof.
  intros Hn Hd Hw Hh Hsmall Huse.
  assert (Hfit : ico_fits im0 = true) by (by apply ico_fits_spec).
  destruct (generate_exports_summary decoder src out d im0 w Hn Hd Huse Hfit)
    as (w' & mk & Hrun & Hevs & Hmk & Hin & _).
  exists w', (ico_entries (convert im0 ModeRGBA) ico_sizes).
  split; [exact Hrun |]. split; [| split; [compute_done | split]].
  - rewrite Hevs. do 2 (apply elem_of_app; right).
    apply export_events_ico_message.
  - apply Hin. apply last_named_ico.
  - intros f im Hin'. apply ico_entries_elem, ico_keeps_spec in Hin'.
    simpl in Hin'. lia.
Qed.

Lemma X11_ico_message_lists_requested_sizes_witness :
  ∃ w' entries,
    generate_tauri_icons sample_decoder ["dog.png"] ["icons"]
      (sample_world "100x100") = (Val tt, w')
    ∧ EvPrint (MsgIcoGenerated ico_sizes)
      ∈ new_events (sample_world "100x100") w'
    ∧ (256, 256)%Z ∈ ico_sizes
    ∧ files w' !! os_path_join ["icons"] "icon.ico"
      = Some (File (IcoFile entries))
    ∧ ∀ f im, Thumbnail (256, 256)%Z f im ∉ entries.
Proof.
  apply (X11_ico_message_lists_requested_sizes sample_decoder ["dog.png"]
           ["icons"] (Raw "100x100") (Decoded 100 100 ModeP 3)).
  - reflexivity.
  - reflexivity.
  - simpl. lia.
  - simpl. lia.
  - left. simpl. lia.
  - vm_compute. reflexivity.
Defined.

(** X12. The configuration block runs the routine on [dog.png] with the
    default output directory: whatever the world and the outcome, it opens
    no file other than [dog.png], and every path other than [icons] and
    the paths directly under it keeps its node. *)
Theorem X12_main_stays_in_icons decoder w q :
  q ≠ ["icons"] → (∀ f, q ≠ [f; "icons"]) →
  files (main decoder w).2 !! q = files w !! q
  ∧ (opened_paths (new_events w (main decoder w).2) = []
     ∨ opened_paths (new_events w (main decoder w).2) = [["dog.png"]]).
Proof.
  intros Hdir Hunder. unfold main, SOURCE_IMAGE. split.
  - destruct (generate_keeps decoder ["dog.png"] ["icons"] w) as [[Ht _] _].
    destruct (Ht q) as [E | [(Hq & _ & _ & Hs) | (f & c & -> & _)]].
    + done.
    + exfalso. destruct Hs as [k Hk]. destruct k as [|a [|b k]].
      * simpl in Hk. by subst q.
      * simpl in Hk. injection Hk as _ Hk. by subst q.
      * simpl in Hk. injection Hk as _ Hk. by destruct k.
    + exfalso. by apply (Hunder f).
  - destruct (generate_events decoder ["dog.png"] ["icons"] w)
      as [[-> _] | [(e & _ & F) | [(mk & e & _ & F & ->)
         | (mk & im0 & ex & F & _ & Fx & -> & _)]]].
    + by left.
    + left. by apply setup_opened.
    + right. by rewrite opened_paths_app, setup_opened.
    + right. rewrite opened_paths_app, setup_opened by done.
      change (["dog.png"] :: opened_paths ex = [["dog.png"]]).
      by rewrite (export_opened ["icons"]).
Qed.

Lemma X12_main_stays_in_icons_witness :
  files (main sample_decoder (sample_world "1024x1024")).2 !! ["notes.txt"]
  = files (sample_world "1024x1024") !! ["notes.txt"]
  ∧ (opened_paths (new_events (sample_world "1024x1024")
                     (main sample_decoder (sample_world "1024x1024")).2) = []
     ∨ opened_paths (new_events (sample_world "1024x1024")
                       (main sample_decoder (sample_world "1024x1024")).2)
       = [["dog.png"]]).
Proof.
  apply (X12_main_stays_in_icons sample_decoder (sample_world "1024x1024")
           ["notes.txt"]).
  - discriminate.
  - intros f. discriminate.
Defined.
